(** * HytaleBlockReader: material tally, colour hash and layer grid

    A shallow embedding of the logic of [App.tsx] in its three revisions:

    - [Basic]: src/src/App.tsx, which counts block names only;
    - the revision with fluids, the "empty" filter and persisted
      materials (second half of unnamed/part_000), whose counting loop is
      the one of the layer-aware revision;
    - the layer-aware revision (first half of unnamed/part_000), which
      adds the block list, the colour map and the layer grid.

    Conventions of the embedding.

    - A JavaScript number that the code treats as an integer (a
      coordinate, a count, a character code, the running hash) is a [Z]
      or a [nat]; the 32-bit conversions of [<<] and [&] are written out.
    - A string is a [string]; its characters stand for the code units
      that [charCodeAt] returns.
    - An object literal used as a dictionary ([Materials], [BlockColors],
      the checkbox record) and the [Map] of the grid are finite maps over
      their own keys. Where the code reads [obj[name]] for a name taken
      from a record of the imported arrays (the counting loops, colour
      priming, the background of a cell), a name that the object
      inherits from [Object.prototype] reads the inherited value
      ([JS.inherited]). The rows of the table are own keys of the tally;
      the checkbox record and the language map are read under them as
      own entries.
    - A record of the imported arrays follows the [Block] interface: its
      [name] is a string or is missing.
    - React state is an explicit record, [localStorage] an explicit
      store, and every setter a functional update. *)

From Stdlib Require Import ZArith Lia Ascii.
From stdpp Require Import gmap strings list fin_maps pretty sorting.

Local Open Scope Z_scope.

(** ** JavaScript primitives used by the component *)

Module JS.

(** [ToInt32]: reduction of an integer-valued number to the signed
    32-bit range, by wrap-around. *)
Definition toInt32 (v : Z) : Z := (v + 2 ^ 31) mod 2 ^ 32 - 2 ^ 31.

(** [a << n], for a shift count [0 <= n < 32] *)
Definition shl (a n : Z) : Z := toInt32 (Z.shiftl (toInt32 a) n).

(** [a & b] *)
Definition band (a b : Z) : Z := Z.land (toInt32 a) (toInt32 b).

(** [a % b] on integer-valued numbers: the sign follows the dividend. *)
Definition rem (a b : Z) : Z := Z.rem a b.

(** [Math.abs] *)
Definition Math_abs (v : Z) : Z := Z.abs v.

(** [s.charCodeAt(i)] for every [i < s.length], in order. *)
Definition charCodes (s : string) : list Z :=
  (λ c, Z.of_nat (Ascii.nat_of_ascii c)) <$> String.list_ascii_of_string s.

(** Truthiness of a string: only the empty one is falsy. *)
Definition truthy (s : string) : bool :=
  match s with EmptyString => false | String _ _ => true end.

(** The lower-case form of one character: [A]..[Z] move to [a]..[z]. *)
Definition lowerChar (c : Ascii.ascii) : Ascii.ascii :=
  let n := Ascii.nat_of_ascii c in
  if ((65 <=? n) && (n <=? 90))%nat then Ascii.ascii_of_nat (n + 32) else c.

(** [s.toLowerCase()]. The letters e, m, p, t and y, the only ones the
    callers look for, are the images of their ASCII capitals only. *)
Fixpoint toLowerCase (s : string) : string :=
  match s with
  | EmptyString => EmptyString
  | String c s' => String (lowerChar c) (toLowerCase s')
  end.

(** [s.startsWith(sub)] *)
Fixpoint startsWith (s sub : string) : bool :=
  match sub, s with
  | EmptyString, _ => true
  | String _ _, EmptyString => false
  | String c sub', String d s' => if Ascii.eqb c d then startsWith s' sub' else false
  end.

(** [s.includes(sub)] *)
Fixpoint includes (s sub : string) : bool :=
  if startsWith s sub then true
  else match s with
       | EmptyString => false
       | String _ s' => includes s' sub
       end.

(** The property names that an object literal inherits from
    [Object.prototype]. The value read under each of them is a function,
    and under [__proto__] the prototype itself: it is truthy, it is
    neither a number nor a string, and an assignment to [__proto__] of a
    value that is not an object stores nothing. *)
Definition inherited (key : string) : bool :=
  bool_decide (key ∈ ["constructor"; "__defineGetter__"; "__defineSetter__";
                      "hasOwnProperty"; "__lookupGetter__"; "__lookupSetter__";
                      "isPrototypeOf"; "propertyIsEnumerable"; "toString";
                      "valueOf"; "__proto__"; "toLocaleString"]).

(** [String(n)] of an integer, as a template literal prints it. *)
Definition numberToString (n : Z) : string := pretty n.

(** [Math.min(v, ...vs)] and [Math.max(v, ...vs)] on a spread that is
    not empty. *)
Definition Math_min (v : Z) (vs : list Z) : Z := fold_left Z.min vs v.
Definition Math_max (v : Z) (vs : list Z) : Z := fold_left Z.max vs v.

(** [arr.sort(cmp)]: a stable sort; [x] goes before [y] when
    [cmp x y <= 0] and [x] came first. *)
Section Sort.
Context {A : Type} (cmp : A → A → Z).

Fixpoint sort_insert (x : A) (l : list A) : list A :=
  match l with
  | [] => [x]
  | y :: l' => if cmp x y <=? 0 then x :: y :: l' else y :: sort_insert x l'
  end.

Definition Array_sort (l : list A) : list A := foldr sort_insert [] l.
End Sort.

End JS.

(** ** Data model (the interfaces at the head of [App.tsx]) *)

Record Block := mkBlock {
  x : Z;
  y : Z;
  z : Z;
  name : option string       (* [None]: the record has no [name] *)
}.

Inductive MaterialType := block | fluid.

Record MaterialInfo := mkInfo {
  count : nat;
  type : MaterialType
}.

Global Instance MaterialType_eq_dec : EqDecision MaterialType.
Proof. solve_decision. Defined.
Global Instance MaterialInfo_eq_dec : EqDecision MaterialInfo.
Proof. solve_decision. Defined.
Global Instance Block_eq_dec : EqDecision Block.
Proof. solve_decision. Defined.

Abbreviation Materials := (gmap string MaterialInfo).
Abbreviation BlockColors := (gmap string string).

(** ** The colour hash *)

(** One turn of the loop of [generateColorFromName]:
    [hash = ((hash << 5) - hash) + char; hash = hash & hash]. *)
Definition hashStep (hash char : Z) : Z :=
  let hash := (JS.shl hash 5 - hash) + char in
  JS.band hash hash.

Definition hashCodes (codes : list Z) : Z := foldl hashStep 0 codes.

(** The template literal [hsl(${hue}, ${saturation}%, ${lightness}%)]. *)
Definition hsl (hue saturation lightness : Z) : string :=
  "hsl(" +:+ JS.numberToString hue +:+ ", " +:+ JS.numberToString saturation
    +:+ "%, " +:+ JS.numberToString lightness +:+ "%)".

Definition generateColorFromName (name : string) : string :=
  let hash := hashCodes (JS.charCodes name) in
  let hue := JS.Math_abs (JS.rem hash 360) in
  let saturation := 65 + JS.rem (JS.Math_abs hash) 20 in
  let lightness := 45 + JS.rem (JS.Math_abs hash) 15 in
  hsl hue saturation lightness.

(** The recurrence in the words of the specification: [h * 31 + charCode]
    from 0, wrapped to a signed 32-bit integer at every step. *)
Definition specHash (codes : list Z) : Z :=
  foldl (λ h c, JS.toInt32 (h * 31 + c)) 0 codes.

(** ** The aggregator *)

(** The guard of both counting loops:
    [r.name && !r.name.toLowerCase().includes('empty')]. *)
Definition qualifies (r : Block) : bool :=
  match name r with
  | Some n => JS.truthy n && negb (JS.includes (JS.toLowerCase n) "empty")
  | None => false
  end.

Definition increment (info : MaterialInfo) : MaterialInfo :=
  mkInfo (count info + 1) (type info).

(** [materialCounts[n]] seen as a condition: an entry of the tally is an
    object, hence truthy, and so is the value inherited under [n]. *)
Definition hasEntry (materialCounts : Materials) (n : string) : bool :=
  match materialCounts !! n with
  | Some _ => true
  | None => JS.inherited n
  end.

(** The body of the [forEach] callbacks of [handleFileImport], for the
    category [ty] of the list that is scanned. Under an inherited name
    no entry is made, and [count] is incremented on the inherited value:
    the tally is left as it is. *)
Definition tallyRecord (ty : MaterialType) (materialCounts : Materials) (r : Block)
    : Materials :=
  match name r with
  | Some n =>
      if qualifies r then
        let materialCounts :=
          if negb (hasEntry materialCounts n)
          then <[n := mkInfo 0 ty]> materialCounts
          else materialCounts in
        alter increment n materialCounts
      else materialCounts
  | None => materialCounts
  end.

(** What [json.blocks] or [json.fluids] evaluates to. *)
Inductive Field :=
| Absent                          (* [undefined] *)
| NotArray                        (* a value that is not an array *)
| Arr (records : list Block).

Record Document := mkDocument {
  doc_blocks : Field;
  doc_fluids : Field
}.

(** The outcome of [JSON.parse] on the text of the file: it throws (or
    yields [null], and reading [json.blocks] throws), or it yields a
    value seen through its [blocks] and [fluids] properties. *)
Inductive ParseOutcome :=
| Throws (message : string)
| Parsed (json : Document).

(** The [error] state: no message, the fixed message of the schema
    check, or "Failed to parse JSON:" followed by the message caught. *)
Inductive Error := NoError | SchemaError | ParseError (message : string).

Record File := mkFile {
  file_name : string;
  file_parse : ParseOutcome      (* [JSON.parse] of the text read *)
}.

(** "Count materials" up to [setMaterials(materialCounts)], once
    [json.blocks] is known to be the array [bs]. *)
Definition countMaterials (json : Document) (bs : list Block) : Materials :=
  let materialCounts := foldl (tallyRecord block) ∅ bs in
  match doc_fluids json with
  | Arr fs => foldl (tallyRecord fluid) materialCounts fs
  | _ => materialCounts
  end.

(** ** The basic revision, src/src/App.tsx *)

Module Basic.

Abbreviation Materials := (gmap string nat).

Record AppState := mkState {
  materials : Materials;
  fileName : string;
  error : Error
}.

(** [if (block.name) materialCounts[block.name] = (materialCounts[block.name] || 0) + 1].
    Under an inherited name without an entry, [materialCounts[n] || 0] is
    the inherited function and the sum is a string, its text followed by
    1: the code stores it among the counts and the tally leaves the type
    [Materials], which is [None] here; the assignment to [__proto__]
    stores nothing. *)
Definition tallyRecord (materialCounts : Materials) (r : Block) : option Materials :=
  match name r with
  | Some n =>
      if JS.truthy n then
        match materialCounts !! n with
        | Some c => Some (<[n := (c + 1)%nat]> materialCounts)
        | None =>
            if JS.inherited n
            then if String.eqb n "__proto__" then Some materialCounts else None
            else Some (<[n := 1%nat]> materialCounts)
        end
      else Some materialCounts
  | None => Some materialCounts
  end.

Definition countMaterials (bs : list Block) : option Materials :=
  foldl (λ acc r, acc ≫= λ materialCounts, tallyRecord materialCounts r) (Some ∅) bs.

(** The [reader.onload] callback; [None] when the tally left its type. *)
Definition onload (result : ParseOutcome) (st : AppState) : option AppState :=
  match result with
  | Parsed json =>
      match doc_blocks json with
      | Arr bs =>
          (λ materialCounts, mkState materialCounts (fileName st) (error st))
            <$> countMaterials bs
      | _ => Some (mkState ∅ (fileName st) SchemaError)
      end
  | Throws message => Some (mkState ∅ (fileName st) (ParseError message))
  end.

(** [handleFileImport], with the read of the file run to its end before
    any other event. *)
Definition handleFileImport (file : option File) (st : AppState) : option AppState :=
  match file with
  | None => Some st
  | Some f => onload (file_parse f) (mkState (materials st) (file_name f) NoError)
  end.

Definition sortedMaterials (materials : Materials) : list (string * nat) :=
  JS.Array_sort (λ a b, Z.of_nat b.2 - Z.of_nat a.2) (map_to_list materials).

(** [Object.values(materials).reduce((a, b) => a + b, 0)] *)
Definition materialsTotal (materials : Materials) : nat :=
  foldl (λ a b, (a + b.2)%nat) 0%nat (map_to_list materials).

End Basic.

(** ** The layer-aware revision, unnamed/part_000 *)

Record AppState := mkState {
  selectedLayer : option Z;
  materials : Materials;
  fileName : string;
  error : Error;
  checkedItems : gmap string bool;
  blocks : list Block;
  blockColors : BlockColors;
  isLoadingFromStorage : bool
}.

Definition setSelectedLayer (v : option Z) (st : AppState) : AppState :=
  mkState v (materials st) (fileName st) (error st) (checkedItems st)
    (blocks st) (blockColors st) (isLoadingFromStorage st).
Definition setMaterials (v : Materials) (st : AppState) : AppState :=
  mkState (selectedLayer st) v (fileName st) (error st) (checkedItems st)
    (blocks st) (blockColors st) (isLoadingFromStorage st).
Definition setFileName (v : string) (st : AppState) : AppState :=
  mkState (selectedLayer st) (materials st) v (error st) (checkedItems st)
    (blocks st) (blockColors st) (isLoadingFromStorage st).
Definition setError (v : Error) (st : AppState) : AppState :=
  mkState (selectedLayer st) (materials st) (fileName st) v (checkedItems st)
    (blocks st) (blockColors st) (isLoadingFromStorage st).
Definition setCheckedItems (v : gmap string bool) (st : AppState) : AppState :=
  mkState (selectedLayer st) (materials st) (fileName st) (error st) v
    (blocks st) (blockColors st) (isLoadingFromStorage st).
Definition setBlocks (v : list Block) (st : AppState) : AppState :=
  mkState (selectedLayer st) (materials st) (fileName st) (error st)
    (checkedItems st) v (blockColors st) (isLoadingFromStorage st).
Definition setBlockColors (v : BlockColors) (st : AppState) : AppState :=
  mkState (selectedLayer st) (materials st) (fileName st) (error st)
    (checkedItems st) (blocks st) v (isLoadingFromStorage st).
Definition setLoading (v : bool) (st : AppState) : AppState :=
  mkState (selectedLayer st) (materials st) (fileName st) (error st)
    (checkedItems st) (blocks st) (blockColors st) v.

(** *** Colour priming *)

(** [newColors[n]] seen as a condition: a colour is there and it is not
    the empty string, or no colour is there and [n] is an inherited
    name, whose value is truthy. *)
Definition hasColor (newColors : BlockColors) (n : string) : bool :=
  match newColors !! n with
  | Some c => JS.truthy c
  | None => JS.inherited n
  end.

(** The callback of the [forEach] of [ensureBlockColors], on the pair
    of [newColors] and [hasNewColors]. *)
Definition colorRecord (acc : BlockColors * bool) (r : Block) : BlockColors * bool :=
  match name r with
  | Some n =>
      if JS.truthy n && negb (hasColor acc.1 n)
      then (<[n := generateColorFromName n]> acc.1, true)
      else acc
  | None => acc
  end.

Definition ensureBlockColors (blocksToColor : list Block) (st : AppState) : AppState :=
  let '(newColors, hasNewColors) :=
    foldl colorRecord (blockColors st, false) blocksToColor in
  if hasNewColors then setBlockColors newColors st else st.

(** *** Import *)

(** The [reader.onload] callback. *)
Definition onload (result : ParseOutcome) (st : AppState) : AppState :=
  match result with
  | Parsed json =>
      match doc_blocks json with
      | Arr bs =>
          let st := setMaterials (countMaterials json bs) st in
          let st := setBlocks bs st in
          ensureBlockColors bs st
      | _ =>
          let st := setError SchemaError st in
          setMaterials ∅ st
      end
  | Throws message =>
      let st := setError (ParseError message) st in
      let st := setMaterials ∅ st in
      setBlocks [] st
  end.

(** The handler of the change event alone, up to the start of the read:
    [setFileName(file.name); setError('')]. *)
Definition chooseFile (f : File) (st : AppState) : AppState :=
  let st := setFileName (file_name f) st in
  setError NoError st.

(** [handleFileImport], with the read of the file run to its end before
    any other event: the handler of the change event followed at once
    by [reader.onload]. A read that ends later, after other events, is
    [onload] alone on the state of that time. *)
Definition handleFileImport (file : option File) (st : AppState) : AppState :=
  match file with
  | None => st
  | Some f => onload (file_parse f) (chooseFile f st)
  end.

Definition toggleChecked (material : string) (st : AppState) : AppState :=
  setCheckedItems
    (<[material := negb (default false (checkedItems st !! material))]> (checkedItems st))
    st.

(** *** Display of the tally *)

Definition sortedMaterials (materials : Materials) : list (string * MaterialInfo) :=
  JS.Array_sort (λ a b, Z.of_nat (count b.2) - Z.of_nat (count a.2))
    (map_to_list materials).

(** [Object.values(materials).reduce((a, b) => a + b.count, 0)] *)
Definition materialsTotal (materials : Materials) : nat :=
  foldl (λ a b, (a + count b.2)%nat) 0%nat (map_to_list materials).

(** *** Layer viewer *)

Definition blocksOnLayer (st : AppState) : list Block :=
  match selectedLayer st with
  | Some layer => filter (λ b, y b = layer) (blocks st)
  | None => []
  end.

Record Bounds := mkBounds { minX : Z; maxX : Z; minZ : Z; maxZ : Z }.

Definition getGlobalGridBounds (st : AppState) : Bounds :=
  match blocks st with
  | [] => mkBounds 0 0 0 0
  | b :: bs =>
      let xValues := x <$> bs in
      let zValues := z <$> bs in
      mkBounds (JS.Math_min (x b) xValues) (JS.Math_max (x b) xValues)
               (JS.Math_min (z b) zValues) (JS.Math_max (z b) zValues)
  end.

(** The key [`${x},${z}`] of a grid cell. *)
Definition cellKey (cx cz : Z) : string :=
  JS.numberToString cx +:+ "," +:+ JS.numberToString cz.

Definition getBlockGridMap (st : AppState) : gmap string Block :=
  foldl (λ map b, <[cellKey (x b) (z b) := b]> map) ∅ (blocksOnLayer st).

Definition totalBlocks (st : AppState) : nat := length (blocks st).

(** The cells of the grid, row by row: the coordinates of each cell and
    the block found for it. No grid is drawn when no layer is selected
    or the selected layer holds no block. *)
Definition gridCells (st : AppState) : list (Z * Z * option Block) :=
  let globalBounds := getGlobalGridBounds st in
  let blockMap := getBlockGridMap st in
  match selectedLayer st with
  | Some _ =>
      if (0 <? length (blocksOnLayer st))%nat then
        xIdx ← seqZ 0 (maxX globalBounds - minX globalBounds + 1);
        zIdx ← seqZ 0 (maxZ globalBounds - minZ globalBounds + 1);
        let cx := minX globalBounds + xIdx in
        let cz := minZ globalBounds + zIdx in
        [(cx, cz, blockMap !! cellKey cx cz)]
      else []
  | None => []
  end.

Definition occupiedCells (st : AppState) : nat :=
  length (filter (λ c, is_Some c.2) (gridCells st)).

(** *** Persistence *)

(** [localStorage], by key. An entry is the value whose [JSON.stringify]
    text the key holds; [None] when the key was never set. *)
Record Storage := mkStorage {
  stored_materials : option Materials;
  stored_checkedItems : option (gmap string bool);
  stored_blocks : option (list Block);
  stored_blockColors : option BlockColors
}.

(** The four saving effects, in the order of the source. *)
Definition saveBlocks (st : AppState) (ls : Storage) : Storage :=
  if (0 <? length (blocks st))%nat
  then mkStorage (stored_materials ls) (stored_checkedItems ls)
         (Some (blocks st)) (stored_blockColors ls)
  else ls.

Definition saveBlockColors (st : AppState) (ls : Storage) : Storage :=
  if (0 <? size (blockColors st))%nat
  then mkStorage (stored_materials ls) (stored_checkedItems ls)
         (stored_blocks ls) (Some (blockColors st))
  else ls.

Definition saveMaterials (st : AppState) (ls : Storage) : Storage :=
  if (0 <? size (materials st))%nat
  then mkStorage (Some (materials st)) (stored_checkedItems ls)
         (stored_blocks ls) (stored_blockColors ls)
  else ls.

Definition saveCheckedItems (st : AppState) (ls : Storage) : Storage :=
  if negb (isLoadingFromStorage st)
  then mkStorage (stored_materials ls) (Some (checkedItems st))
         (stored_blocks ls) (stored_blockColors ls)
  else ls.

(** The effects that follow a render. An effect whose dependency did
    not change since its last run would store again what it stored then,
    so all four are run. *)
Definition runEffects (st : AppState) (ls : Storage) : Storage :=
  saveCheckedItems st (saveMaterials st (saveBlockColors st (saveBlocks st ls))).

(** The state after mounting: the initialisers of [useState], the two
    mount effects, then the saving effects. *)
Definition mount (ls : Storage) : AppState * Storage :=
  let st := mkState None (default ∅ (stored_materials ls)) "" NoError
              (default ∅ (stored_checkedItems ls)) []
              (default ∅ (stored_blockColors ls)) true in
  let st := match stored_blocks ls with
            | Some saved => setBlocks saved st
            | None => st
            end in
  let st := setLoading false st in
  (st, runEffects st ls).

(** What the user and the file reader do to the component: a file is
    chosen and read at once ([Import]); or a file is chosen
    ([ChooseFile]) and its read ends later, after other events
    ([ReadEnds]); a checkbox is toggled; a layer is selected. *)
Inductive Action :=
| Import (file : option File)
| ChooseFile (f : File)
| ReadEnds (result : ParseOutcome)
| ToggleChecked (material : string)
| SelectLayer (layer : option Z).

Definition update (a : Action) (st : AppState) : AppState :=
  match a with
  | Import file => handleFileImport file st
  | ChooseFile f => chooseFile f st
  | ReadEnds result => onload result st
  | ToggleChecked material => toggleChecked material st
  | SelectLayer layer => setSelectedLayer layer st
  end.

(** A user action, the render that follows and its effects. *)
Definition dispatch (a : Action) (s : AppState * Storage) : AppState * Storage :=
  let st := update a s.1 in
  (st, runEffects st s.2).

(** ** Vocabulary of the properties *)

(** The records that count, and how many of them carry a given name. *)
Definition qualifying (l : list Block) : list Block :=
  filter (λ r, qualifies r) l.

(** The number of counting records of [l] named exactly [n]. *)
Definition occurrences (n : string) (l : list Block) : nat :=
  length (filter (λ r, name r = Some n) (qualifying l)).

(** The records that end up in the tally: the counting records whose
    name is not an inherited one. *)
Definition tallied (r : Block) : bool :=
  qualifies r
  && match name r with
     | Some n => negb (JS.inherited n)
     | None => false
     end.

Definition talliedRecords (l : list Block) : list Block :=
  filter (λ r, tallied r) l.

(** No record of [l] carries an inherited name. *)
Definition plainNamed (l : list Block) : Prop :=
  Forall (λ r, ∀ n, name r = Some n → JS.inherited n = false) l.

(** A map without an entry of its own under an inherited name. *)
Definition inheritedFree {V} (m : gmap string V) : Prop :=
  ∀ n, JS.inherited n = true → m !! n = None.

(** The fluid list of a document: the [fluids] array when there is one. *)
Definition fluidRecords (json : Document) : list Block :=
  match doc_fluids json with
  | Arr fs => fs
  | _ => []
  end.

(** The guard of the basic loop, [if (block.name)], and the number of
    records it lets through under a given name. *)
Definition hasName (r : Block) : bool :=
  match name r with
  | Some n => JS.truthy n
  | None => false
  end.

(** The number of records of [l] with the non-empty name [n]. *)
Definition countNamed (n : string) (l : list Block) : nat :=
  length (filter (λ r, name r = Some n) (filter (λ r, hasName r) l)).

(** What is expected of a tally, seen through the count it gives to
    each name and the sum of its counts. *)
Definition TallyCountsQualifying (countOf : string → option nat) (total : nat)
    (json : Document) (bs : list Block) : Prop :=
  (∀ n, countOf n
        = let k := (occurrences n bs + occurrences n (fluidRecords json))%nat in
          if decide (k = 0%nat) then None else Some k)
  ∧ total = (length (qualifying bs) + length (qualifying (fluidRecords json)))%nat.

(** Scenario 2 of the specification. *)
Definition air_empty_doc : Document :=
  mkDocument (Arr [mkBlock 0 0 0 (Some "air_empty")]) Absent.

(** A state with nothing imported, as after mounting on an empty store. *)
Definition emptyState : AppState :=
  mkState None ∅ "" NoError ∅ [] ∅ false.

(** Scenario 5 of the specification. *)
Definition water_blocks : list Block := [mkBlock 0 1 0 (Some "water")].
Definition water_fluids : list Block := [mkBlock 0 1 1 (Some "water")].
Definition water_doc : Document := mkDocument (Arr water_blocks) (Arr water_fluids).
Definition water_file : File := mkFile "water.json" (Parsed water_doc).

(** Scenario 5 again, under a name that an object inherits. *)
Definition constructor_blocks : list Block := [mkBlock 0 1 0 (Some "constructor")].
Definition constructor_fluids : list Block := [mkBlock 0 1 1 (Some "constructor")].
Definition constructor_file : File :=
  mkFile "constructor.json"
    (Parsed (mkDocument (Arr constructor_blocks) (Arr constructor_fluids))).

(** Scenario 1 and scenario 3 of the specification. *)
Definition stone_doc : Document :=
  mkDocument (Arr [mkBlock 0 0 0 (Some "stone"); mkBlock 1 0 0 (Some "dirt");
                   mkBlock 2 0 0 (Some "stone"); mkBlock 3 0 0 (Some "oak_log")])
             Absent.
Definition wrongKey_doc : Document := mkDocument Absent Absent.
Definition stone_file : File := mkFile "stone.json" (Parsed stone_doc).
Definition wrongKey_file : File := mkFile "wrongKey.json" (Parsed wrongKey_doc).

(** [v] is the least, respectively the greatest, element of [l]. *)
Definition isMinOf (v : Z) (l : list Z) : Prop := v ∈ l ∧ ∀ w, w ∈ l → v ≤ w.
Definition isMaxOf (v : Z) (l : list Z) : Prop := v ∈ l ∧ ∀ w, w ∈ l → w ≤ v.

(** The blocks of an import that ask for a colour under the name [n]. *)
Definition asksColor (n : string) (r : Block) : Prop :=
  name r = Some n ∧ JS.truthy n.

Global Instance asksColor_dec n r : Decision (asksColor n r).
Proof. unfold asksColor. apply _. Defined.


(** The comparator of both revisions: [(a, b) => key(b) - key(a)]. *)
Definition descending {A} (key : A → nat) (a b : A) : Z :=
  Z.of_nat (key b) - Z.of_nat (key a).

(** [a] may stand before [b]: its key is not smaller. *)
Definition keyGe {A} (key : A → nat) (a b : A) : Prop := (key b ≤ key a)%nat.

(** The cells that the blocks of the selected layer stand on. *)
Definition layerCoords (st : AppState) : list (Z * Z) :=
  (λ b, (x b, z b)) <$> blocksOnLayer st.

(** A string without a comma. *)
Fixpoint commaFree (s : string) : Prop :=
  match s with
  | EmptyString => True
  | String c s' => c ≠ ","%char ∧ commaFree s'
  end.

(** The coordinates of the cells drawn, row by row. *)
Definition gridCoords (gb : Bounds) : list (Z * Z) :=
  xIdx ← seqZ 0 (maxX gb - minX gb + 1);
  zIdx ← seqZ 0 (maxZ gb - minZ gb + 1);
  [(minX gb + xIdx, minZ gb + zIdx)].

(** An import in which only one of three block records counts. *)
Definition mixed_doc : Document :=
  mkDocument (Arr [mkBlock 0 0 0 (Some "Air_Empty"); mkBlock 1 0 0 None;
                   mkBlock 2 0 0 (Some "stone")])
             Absent.

(** A store in which no key was ever set. *)
Definition emptyStorage : Storage := mkStorage None None None None.

(** Every entry of the store is the value in memory. *)
Definition StoreMirrors (st : AppState) (ls : Storage) : Prop :=
  stored_materials ls = Some (materials st)
  ∧ stored_blocks ls = Some (blocks st)
  ∧ stored_blockColors ls = Some (blockColors st)
  ∧ stored_checkedItems ls = Some (checkedItems st).

(** The states reached from a store by mounting and then acting. *)
Definition run (ls : Storage) (actions : list Action) : AppState * Storage :=
  foldl (λ s a, dispatch a s) (mount ls) actions.

(** Scenario 4 of the specification: a text that is not JSON. *)
Definition broken_file : File :=
  mkFile "broken.json" (Throws "Unexpected end of JSON input").

(** Every colour of the map is a non-empty string. *)
Definition allColors (m : BlockColors) : Prop :=
  ∀ n c, m !! n = Some c → JS.truthy c = true.

(** The states of the component and its store over any number of
    sessions: a first visit on an empty store, then actions and reloads
    of the page. *)
Inductive Reachable : AppState * Storage → Prop :=
| reach_first : Reachable (mount emptyStorage)
| reach_dispatch a s : Reachable s → Reachable (dispatch a s)
| reach_reload s : Reachable s → Reachable (mount s.2).

(** ** The rest of the layer-aware revision *)

(** [Array.from(new Set(values))]: the values, each at the place of its
    first occurrence. *)
Definition Array_from_Set (values : list Z) : list Z :=
  foldl (λ acc v, if decide (v ∈ acc) then acc else acc ++ [v]) [] values.

(** [Array.from(new Set(blocks.map(b => b.y))).sort((a, b) => a - b)] *)
Definition uniqueLayers (st : AppState) : list Z :=
  JS.Array_sort (λ a b, a - b) (Array_from_Set (y <$> blocks st)).

(** The count in the label of a layer of the selector:
    [blocks.filter(b => b.y === layer).length]. *)
Definition layerBlockCount (st : AppState) (layer : Z) : nat :=
  length (filter (λ b, y b = layer) (blocks st)).

(** The "Total Layers" figure. *)
Definition totalLayers (st : AppState) : nat := length (uniqueLayers st).

(** [langMap[materialKey] || materialKey], for the language map loaded on
    mounting. *)
Definition getDisplayName (langMap : gmap string string) (materialKey : string)
    : string :=
  match langMap !! materialKey with
  | Some label => if JS.truthy label then label else materialKey
  | None => materialKey
  end.

(** The [checked] attribute of a row: [checkedItems[material] || false]. *)
Definition isChecked (st : AppState) (material : string) : bool :=
  default false (checkedItems st !! material).

(** The condition of the grid:
    [selectedLayer !== null && blocksOnLayer.length > 0]. *)
Definition showsGrid (st : AppState) : bool :=
  match selectedLayer st with
  | Some _ => (0 <? length (blocksOnLayer st))%nat
  | None => false
  end.

(** The numbers of the line "Grid: rows x columns"; the second is also
    the column count of the grid template. *)
Definition gridRows (st : AppState) : Z :=
  maxX (getGlobalGridBounds st) - minX (getGlobalGridBounds st) + 1.
Definition gridColumns (st : AppState) : Z :=
  maxZ (getGlobalGridBounds st) - minZ (getGlobalGridBounds st) + 1.



(** The three cards below the file input: the error alert ([error &&]),
    the Materials Used table ([Object.keys(materials).length > 0 &&]) and
    the "No data yet" card
    ([Object.keys(materials).length === 0 && !error &&]). Every message
    that [setError] stores but the empty one is truthy. *)
Definition showsError (st : AppState) : bool :=
  match error st with
  | NoError => false
  | _ => true
  end.
Definition showsMaterials (st : AppState) : bool :=
  (0 <? size (materials st))%nat.
Definition showsEmptyState (st : AppState) : bool :=
  (size (materials st) =? 0)%nat && negb (showsError st).

(** ** Sessions *)

(** What happens to the page: an action, or a reload. *)
Inductive Event :=
| Act (a : Action)
| Reload.

Definition step (s : AppState * Storage) (e : Event) : AppState * Storage :=
  match e with
  | Act a => dispatch a s
  | Reload => mount s.2
  end.

(** The state and the store after a first visit followed by [events]. *)
Definition sessions (events : list Event) : AppState * Storage :=
  foldl step (mount emptyStorage) events.

(** ** Vocabulary of the further properties *)

(** The names under which the records of a file are counted: those of
    its counting records, but for the inherited names. *)
Definition countedNames (json : Document) (bs : list Block) : list string :=
  omap name (talliedRecords (bs ++ fluidRecords json)).

(** Every colour of the map is the hash colour of its name. *)
Definition hashColors (m : BlockColors) : Prop :=
  ∀ n c, m !! n = Some c → c = generateColorFromName n.

(** Every block of [bs] with a non-empty name that is not an inherited
    one has its hash colour in [m]. *)
Definition coloured (m : BlockColors) (bs : list Block) : Prop :=
  ∀ b n, b ∈ bs → name b = Some n → JS.truthy n = true → JS.inherited n = false →
         m !! n = Some (generateColorFromName n).

(** A cell shows a block of the selected layer that stands on it, or is
    empty and no block of the layer stands on it. *)
Definition cellFaithful (st : AppState) (c : Z * Z * option Block) : Prop :=
  match c.2 with
  | Some b => b ∈ blocks st ∧ selectedLayer st = Some (y b)
              ∧ x b = c.1.1 ∧ z b = c.1.2
  | None => (c.1.1, c.1.2) ∉ layerCoords st
  end.


(** A block with a non-empty name passes the test of the priming loop
    on [m]: the loop has nothing to add for it. *)
Definition hasItsColor (m : BlockColors) (b : Block) : Prop :=
  match name b with
  | Some n => if JS.truthy n then hasColor m n = true else True
  | None => True
  end.

(** What holds of the colours throughout the sessions: the colours in
    memory are hash colours, none under an inherited name, and are the
    stored ones, and they cover the blocks in memory and the stored
    blocks. *)
Definition coloursInvariant (s : AppState * Storage) : Prop :=
  hashColors (blockColors s.1)
  ∧ inheritedFree (blockColors s.1)
  ∧ default ∅ (stored_blockColors s.2) = blockColors s.1
  ∧ coloured (blockColors s.1) (blocks s.1)
  ∧ coloured (blockColors s.1) (default [] (stored_blocks s.2)).


(** * Properties *)

(** ** The colour hash *)

Section ColorHash.

Lemma toInt32_wraps v : ∃ k, JS.toInt32 v = v + k * 2 ^ 32.
Proof.
  exists (- ((v + 2 ^ 31) / 2 ^ 32)). unfold JS.toInt32.
  rewrite Z.mod_eq by lia. lia.
Qed.

Lemma toInt32_congr a b k : a = b + k * 2 ^ 32 → JS.toInt32 a = JS.toInt32 b.
Proof.
  intros ->. unfold JS.toInt32.
  replace (b + k * 2 ^ 32 + 2 ^ 31) with (b + 2 ^ 31 + k * 2 ^ 32) by lia.
  by rewrite Z.mod_add by lia.
Qed.

Lemma toInt32_range v : - 2 ^ 31 ≤ JS.toInt32 v < 2 ^ 31.
Proof.
  unfold JS.toInt32. pose proof (Z.mod_pos_bound (v + 2 ^ 31) (2 ^ 32)). lia.
Qed.

Lemma toInt32_idemp v : JS.toInt32 (JS.toInt32 v) = JS.toInt32 v.
Proof.
  destruct (toInt32_wraps v) as [k Hk]. by apply (toInt32_congr _ _ k).
Qed.

(** One turn of the loop is one step of the recurrence. *)
Lemma hashStep_spec h c : hashStep h c = JS.toInt32 (h * 31 + c).
Proof.
  unfold hashStep, JS.band, JS.shl. rewrite Z.land_diag, Z.shiftl_mul_pow2 by lia.
  destruct (toInt32_wraps h) as [k0 Hk0].
  destruct (toInt32_wraps (JS.toInt32 h * 2 ^ 5)) as [k1 Hk1].
  apply (toInt32_congr _ _ (32 * k0 + k1)). rewrite Hk1, Hk0. lia.
Qed.

Lemma hashCodes_spec codes : hashCodes codes = specHash codes.
Proof.
  unfold hashCodes, specHash. generalize 0.
  induction codes as [|c codes IH]; intros h; simpl; [done|].
  by rewrite hashStep_spec, IH.
Qed.

(** The running hash is a signed 32-bit integer after every turn. *)
Lemma hashCodes_range codes : - 2 ^ 31 ≤ hashCodes codes < 2 ^ 31.
Proof.
  unfold hashCodes. assert (- 2 ^ 31 ≤ 0 < 2 ^ 31) as H0 by lia.
  revert H0. generalize 0.
  induction codes as [|c codes IH]; intros h Hh; simpl; [done|].
  apply IH. rewrite hashStep_spec. apply toInt32_range.
Qed.

Lemma abs_rem h m : 0 < m → JS.Math_abs (JS.rem h m) = Z.abs h mod m.
Proof.
  intros Hm. unfold JS.Math_abs, JS.rem.
  rewrite <- (Z.rem_mod_nonneg (Z.abs h) m) by lia.
  replace m with (Z.abs m) at 2 by lia. rewrite Z.rem_abs by lia. done.
Qed.

Lemma rem_abs h m : 0 < m → JS.rem (JS.Math_abs h) m = Z.abs h mod m.
Proof.
  intros Hm. unfold JS.Math_abs, JS.rem. apply Z.rem_mod_nonneg; lia.
Qed.

End ColorHash.

(** C2. For every name, the colour computed by [generateColorFromName] is
    the HSL colour with hue [abs h mod 360], saturation
    [65 + abs h mod 20] and lightness [45 + abs h mod 15], where [h]
    folds the character codes of the name from the left with
    [h * 31 + charCode] from 0, wrapped to a signed 32-bit integer at
    each step. The colour is a function of the name alone, so equal
    names have equal colours. *)
Theorem generateColorFromName_spec (name : string) :
  let h := specHash (JS.charCodes name) in
  hashCodes (JS.charCodes name) = h
  ∧ generateColorFromName name
    = hsl (Z.abs h mod 360) (65 + Z.abs h mod 20) (45 + Z.abs h mod 15).
Proof.
  split; [apply hashCodes_spec|].
  unfold generateColorFromName. simpl.
  rewrite abs_rem, !rem_abs by lia. by rewrite hashCodes_spec.
Qed.

(** A name whose hash is positive and a name whose hash is negative. *)
Example color_stone :
  hashCodes (JS.charCodes "stone") = 109770853
  ∧ generateColorFromName "stone" = "hsl(13, 78%, 58%)".
Proof. vm_compute. done. Qed.

Example color_Rock_Stone_Cobble :
  hashCodes (JS.charCodes "Rock_Stone_Cobble") = -63696903
  ∧ generateColorFromName "Rock_Stone_Cobble" = "hsl(303, 68%, 48%)".
Proof. vm_compute. done. Qed.

(** The guard of the counting loops on a few names. *)
Example qualifies_names :
  qualifies (mkBlock 0 0 0 (Some "stone")) = true
  ∧ qualifies (mkBlock 0 0 0 (Some "air_empty")) = false
  ∧ qualifies (mkBlock 0 0 0 (Some "Empty_Slot")) = false
  ∧ qualifies (mkBlock 0 0 0 (Some "EMPTY")) = false
  ∧ qualifies (mkBlock 0 0 0 (Some "empt")) = true
  ∧ qualifies (mkBlock 0 0 0 (Some "")) = false
  ∧ qualifies (mkBlock 0 0 0 None) = false.
Proof. vm_compute. done. Qed.

(** ** The aggregator *)

(** A list of records given in full has no inherited name. *)
Ltac solve_plainNamed :=
  repeat (constructor; [by (intros ? [= <-] || intros ? [=])|]); constructor.

Section Aggregator.

Lemma occurrences_cons n r l :
  occurrences n (r :: l)
  = ((if bool_decide (qualifies r ∧ name r = Some n) then 1 else 0)
     + occurrences n l)%nat.
Proof.
  unfold occurrences, qualifying. rewrite filter_cons.
  destruct (decide (qualifies r)) as [Hq|Hq].
  - rewrite filter_cons. destruct (decide (name r = Some n)) as [Hn|Hn].
    + by rewrite bool_decide_eq_true_2.
    + rewrite bool_decide_eq_false_2; [done|]. by intros [_ ?].
  - rewrite bool_decide_eq_false_2; [done|]. by intros [? _].
Qed.

Lemma qualifying_cons r l :
  length (qualifying (r :: l))
  = ((if qualifies r then 1 else 0) + length (qualifying l))%nat.
Proof.
  unfold qualifying. rewrite filter_cons.
  destruct (decide (qualifies r)) as [Hq|Hq]; destruct (qualifies r); naive_solver.
Qed.

Lemma talliedRecords_cons r l :
  length (talliedRecords (r :: l))
  = ((if tallied r then 1 else 0) + length (talliedRecords l))%nat.
Proof.
  unfold talliedRecords. rewrite filter_cons.
  destruct (decide (tallied r)) as [Hq|Hq]; destruct (tallied r); naive_solver.
Qed.

(** Without inherited names, the records of the tally are the counting
    records. *)
Lemma talliedRecords_plain l : plainNamed l → talliedRecords l = qualifying l.
Proof.
  unfold talliedRecords, qualifying. induction 1 as [|r l Hr _ IH]; [done|].
  rewrite !filter_cons, IH.
  assert (tallied r = qualifies r) as Ht.
  { unfold tallied, qualifies. destruct (name r) as [n|]; [|done].
    rewrite (Hr n eq_refl). simpl. by rewrite andb_true_r. }
  rewrite Ht. by destruct (decide (qualifies r)).
Qed.

Lemma plainNamed_app l1 l2 : plainNamed (l1 ++ l2) ↔ plainNamed l1 ∧ plainNamed l2.
Proof. apply Forall_app. Qed.

Lemma plainNamed_occurrences n l :
  plainNamed l → JS.inherited n = true → occurrences n l = 0%nat.
Proof.
  intros Hl Hi. unfold occurrences, qualifying.
  induction Hl as [|r l Hr _ IH]; [done|].
  rewrite filter_cons. destruct (decide (qualifies r)); [|done].
  rewrite filter_cons. destruct (decide (name r = Some n)) as [Hn|Hn]; [|done].
  specialize (Hr n Hn). congruence.
Qed.

Lemma alter_absent (m : Materials) n f : m !! n = None → alter f n m = m.
Proof.
  intros Hn. apply map_eq. intros k. destruct (decide (k = n)) as [->|Hk].
  - by rewrite lookup_alter_eq, Hn.
  - by rewrite lookup_alter_ne.
Qed.

Lemma inheritedFree_empty {V} : inheritedFree (∅ : gmap string V).
Proof. by intros n _. Qed.

(** What one record does to the entry of a name. *)
Lemma tallyRecord_lookup ty (m : Materials) r n :
  inheritedFree m →
  tallyRecord ty m r !! n
  = if bool_decide (tallied r ∧ name r = Some n)
    then Some (increment (default (mkInfo 0 ty) (m !! n)))
    else m !! n.
Proof.
  intros Hm. unfold tallyRecord, tallied, hasEntry.
  destruct (name r) as [n'|] eqn:Hn.
  2: { rewrite bool_decide_eq_false_2; [done|]. by intros [_ ?]. }
  destruct (qualifies r) eqn:Hq; simpl; [|done].
  destruct (JS.inherited n') eqn:Hi; simpl.
  - rewrite (Hm n' Hi). simpl. by rewrite alter_absent by auto.
  - destruct (decide (n' = n)) as [->|Hne].
    + rewrite bool_decide_eq_true_2 by done.
      destruct (m !! n) as [i|] eqn:Hl; simpl.
      * by rewrite lookup_alter_eq, Hl.
      * by rewrite lookup_alter_eq, lookup_insert_eq.
    + rewrite bool_decide_eq_false_2 by (intros [_ [=]]; done).
      rewrite lookup_alter_ne by done.
      destruct (m !! n'); simpl; [done|]. by rewrite lookup_insert_ne.
Qed.

(** No entry is ever made under an inherited name. *)
Lemma tallyRecord_inheritedFree ty (m : Materials) r :
  inheritedFree m → inheritedFree (tallyRecord ty m r).
Proof.
  intros Hm n Hi. rewrite tallyRecord_lookup by done.
  rewrite bool_decide_eq_false_2; [by apply Hm|].
  intros [Ht Hn]. unfold tallied in Ht. rewrite Hn, Hi in Ht.
  by destruct (qualifies r).
Qed.

Lemma tally_inheritedFree ty l (m : Materials) :
  inheritedFree m → inheritedFree (foldl (tallyRecord ty) m l).
Proof.
  revert m. induction l as [|r l IH]; intros m Hm; [done|].
  simpl. by apply IH, tallyRecord_inheritedFree.
Qed.

(** The entry of a name after a whole list was scanned. *)
Lemma tally_lookup ty l (m : Materials) n :
  inheritedFree m → JS.inherited n = false →
  foldl (tallyRecord ty) m l !! n
  = match m !! n with
    | Some i => Some (mkInfo (count i + occurrences n l) (type i))
    | None => if decide (occurrences n l = 0%nat) then None
              else Some (mkInfo (occurrences n l) ty)
    end.
Proof.
  intros Hm Hi. revert m Hm. induction l as [|r l IH]; intros m Hm; simpl.
  - unfold occurrences; simpl. destruct (m !! n) as [[c t]|]; [|done].
    simpl. do 2 f_equal. lia.
  - rewrite IH, tallyRecord_lookup, occurrences_cons
      by (done || by apply tallyRecord_inheritedFree).
    assert (bool_decide (tallied r ∧ name r = Some n)
            = bool_decide (qualifies r ∧ name r = Some n)) as ->.
    { apply bool_decide_ext. unfold tallied. split; intros [Hq Hn]; (split; [|done]).
      - by destruct (qualifies r).
      - rewrite Hn, Hi. by destruct (qualifies r). }
    case_bool_decide; simpl.
    + destruct (m !! n) as [[c t]|]; simpl.
      * do 2 f_equal. lia.
      * do 2 f_equal.
    + destruct (m !! n) as [[c t]|]; simpl; [done|].
      done.
Qed.

Lemma foldl_add_sum {A} (f : A → nat) (l : list A) (a : nat) :
  foldl (λ a b, (a + f b)%nat) a l = (a + sum_list_with f l)%nat.
Proof.
  revert a. induction l as [|b l IH]; intros a; simpl; [lia|].
  rewrite IH. lia.
Qed.

Lemma materialsTotal_sum (m : Materials) :
  materialsTotal m = sum_list_with (λ e, count e.2) (map_to_list m).
Proof. unfold materialsTotal. by rewrite foldl_add_sum. Qed.

Lemma materialsTotal_insert (m : Materials) n i :
  m !! n = None →
  materialsTotal (<[n := i]> m) = (count i + materialsTotal m)%nat.
Proof.
  intros Hn. rewrite !materialsTotal_sum.
  by rewrite (map_to_list_insert m n i Hn).
Qed.

Lemma materialsTotal_delete (m : Materials) n i :
  m !! n = Some i →
  materialsTotal m = (count i + materialsTotal (delete n m))%nat.
Proof.
  intros Hn. rewrite !materialsTotal_sum.
  by rewrite <- (map_to_list_delete m n i Hn).
Qed.

Lemma alter_present (m : Materials) n i f :
  m !! n = Some i → alter f n m = <[n := f i]> (delete n m).
Proof.
  intros Hn. apply map_eq. intros k. destruct (decide (k = n)) as [->|Hk].
  - by rewrite lookup_alter_eq, lookup_insert_eq, Hn.
  - by rewrite lookup_alter_ne, lookup_insert_ne, lookup_delete_ne.
Qed.

(** Every record of the tally adds one to the sum of the counts. *)
Lemma materialsTotal_tallyRecord ty (m : Materials) r :
  inheritedFree m →
  materialsTotal (tallyRecord ty m r)
  = ((if tallied r then 1 else 0) + materialsTotal m)%nat.
Proof.
  intros Hm. unfold tallyRecord, tallied, hasEntry.
  destruct (name r) as [n|] eqn:Hn.
  - destruct (qualifies r); [|done]. simpl.
    destruct (JS.inherited n) eqn:Hi; simpl.
    + rewrite (Hm n Hi). simpl. by rewrite alter_absent by auto.
    + destruct (m !! n) as [i|] eqn:Hl; simpl.
      * rewrite (alter_present m n i) by done.
        rewrite materialsTotal_insert by apply lookup_delete_eq.
        rewrite (materialsTotal_delete m n i) by done. simpl. lia.
      * rewrite alter_insert_eq, materialsTotal_insert by done. simpl. lia.
  - by rewrite andb_false_r.
Qed.

Lemma materialsTotal_tally ty l (m : Materials) :
  inheritedFree m →
  materialsTotal (foldl (tallyRecord ty) m l)
  = (materialsTotal m + length (talliedRecords l))%nat.
Proof.
  revert m. induction l as [|r l IH]; intros m Hm; simpl; [lia|].
  rewrite IH, materialsTotal_tallyRecord, talliedRecords_cons
    by (done || by apply tallyRecord_inheritedFree).
  lia.
Qed.

Lemma materialsTotal_empty : materialsTotal ∅ = 0%nat.
Proof. unfold materialsTotal. by rewrite map_to_list_empty. Qed.

Lemma countMaterials_inheritedFree json bs : inheritedFree (countMaterials json bs).
Proof.
  unfold countMaterials.
  destruct (doc_fluids json); repeat apply tally_inheritedFree;
    apply inheritedFree_empty.
Qed.

(** The tally of a document, name by name. *)
Lemma countMaterials_lookup json bs n :
  countMaterials json bs !! n
  = if JS.inherited n then None
    else if decide (occurrences n bs = 0%nat)
    then if decide (occurrences n (fluidRecords json) = 0%nat) then None
         else Some (mkInfo (occurrences n (fluidRecords json)) fluid)
    else Some (mkInfo (occurrences n bs + occurrences n (fluidRecords json)) block).
Proof.
  destruct (JS.inherited n) eqn:Hi; [by apply countMaterials_inheritedFree|].
  unfold countMaterials, fluidRecords.
  assert (foldl (tallyRecord block) ∅ bs !! n
          = if decide (occurrences n bs = 0%nat) then None
            else Some (mkInfo (occurrences n bs) block)) as Hb.
  { by rewrite tally_lookup, lookup_empty by (done || apply inheritedFree_empty). }
  destruct (doc_fluids json) as [| |fs].
  1,2: rewrite Hb; change (occurrences n []) with 0%nat; simpl;
       destruct (decide (occurrences n bs = 0%nat)); [done|];
       do 2 f_equal; lia.
  rewrite tally_lookup, Hb
    by (done || apply tally_inheritedFree, inheritedFree_empty).
  by destruct (decide (occurrences n bs = 0%nat)).
Qed.

Lemma countMaterials_total json bs :
  materialsTotal (countMaterials json bs)
  = (length (talliedRecords bs) + length (talliedRecords (fluidRecords json)))%nat.
Proof.
  unfold countMaterials, fluidRecords.
  destruct (doc_fluids json) as [| |fs];
    rewrite !materialsTotal_tally, materialsTotal_empty
      by (apply inheritedFree_empty || apply tally_inheritedFree, inheritedFree_empty);
    simpl; lia.
Qed.

Lemma ensureBlockColors_materials bs st :
  materials (ensureBlockColors bs st) = materials st.
Proof.
  unfold ensureBlockColors.
  destruct (foldl colorRecord (blockColors st, false) bs) as [m []]; done.
Qed.

Lemma ensureBlockColors_blocks bs st :
  blocks (ensureBlockColors bs st) = blocks st.
Proof.
  unfold ensureBlockColors.
  destruct (foldl colorRecord (blockColors st, false) bs) as [m []]; done.
Qed.

(** A successful import stores the tally of the document. *)
Lemma onload_materials st bs fl :
  materials (onload (Parsed (mkDocument (Arr bs) fl)) st)
  = countMaterials (mkDocument (Arr bs) fl) bs.
Proof. simpl. by rewrite ensureBlockColors_materials. Qed.

Lemma onload_blocks st bs fl :
  blocks (onload (Parsed (mkDocument (Arr bs) fl)) st) = bs.
Proof. simpl. by rewrite ensureBlockColors_blocks. Qed.

Lemma handleFileImport_materials st fname bs fl :
  materials (handleFileImport (Some (mkFile fname (Parsed (mkDocument (Arr bs) fl)))) st)
  = countMaterials (mkDocument (Arr bs) fl) bs.
Proof. apply onload_materials. Qed.

Lemma handleFileImport_blocks st fname bs fl :
  blocks (handleFileImport (Some (mkFile fname (Parsed (mkDocument (Arr bs) fl)))) st)
  = bs.
Proof. apply onload_blocks. Qed.

End Aggregator.

Section BasicAggregator.

Lemma countNamed_cons n r l :
  countNamed n (r :: l)
  = ((if bool_decide (hasName r ∧ name r = Some n) then 1 else 0)
     + countNamed n l)%nat.
Proof.
  unfold countNamed. rewrite filter_cons.
  destruct (decide (hasName r)) as [Hq|Hq].
  - rewrite filter_cons. destruct (decide (name r = Some n)) as [Hn|Hn].
    + by rewrite bool_decide_eq_true_2.
    + rewrite bool_decide_eq_false_2; [done|]. by intros [_ ?].
  - rewrite bool_decide_eq_false_2; [done|]. by intros [? _].
Qed.

Lemma basic_total_sum (m : Basic.Materials) :
  Basic.materialsTotal m = sum_list_with snd (map_to_list m).
Proof. unfold Basic.materialsTotal. by rewrite foldl_add_sum. Qed.

(** What one record with a name that is not inherited does to the
    count of a name and to the sum of the counts. *)
Lemma basic_tallyRecord_plain (m : Basic.Materials) r :
  (∀ n, name r = Some n → JS.inherited n = false) →
  ∃ m', Basic.tallyRecord m r = Some m'
        ∧ (∀ n, m' !! n
                = if bool_decide (hasName r ∧ name r = Some n)
                  then Some (default 0 (m !! n) + 1)%nat
                  else m !! n)
        ∧ Basic.materialsTotal m'
          = ((if hasName r then 1 else 0) + Basic.materialsTotal m)%nat.
Proof.
  intros Hr. unfold Basic.tallyRecord, hasName.
  destruct (name r) as [n'|] eqn:Hn.
  2: { exists m. split; [done|]. split; [|done]. intros n.
       rewrite bool_decide_eq_false_2; [done|]. by intros [? _]. }
  destruct (JS.truthy n') eqn:Ht.
  2: { exists m. split; [done|]. split; [|done]. intros n.
       rewrite bool_decide_eq_false_2; [done|]. by intros [? _]. }
  rewrite (Hr n' eq_refl).
  exists (<[n' := (default 0 (m !! n') + 1)%nat]> m). split.
  { destruct (m !! n'); simpl; [done|]. done. }
  split.
  - intros n. destruct (decide (n' = n)) as [->|Hne].
    + rewrite bool_decide_eq_true_2 by done. by rewrite lookup_insert_eq.
    + rewrite bool_decide_eq_false_2 by (intros [_ [=]]; done).
      by rewrite lookup_insert_ne.
  - rewrite !basic_total_sum. destruct (m !! n') as [c|] eqn:Hm; simpl.
    + rewrite <- insert_delete_eq.
      rewrite map_to_list_insert by apply lookup_delete_eq.
      rewrite <- (map_to_list_delete m n' c Hm). simpl. lia.
    + rewrite map_to_list_insert by done. simpl. lia.
Qed.

(** The loop over a list without inherited names. *)
Lemma basic_tally_plain l (m : Basic.Materials) :
  plainNamed l →
  ∃ m', foldl (λ acc r, acc ≫= λ materialCounts, Basic.tallyRecord materialCounts r)
          (Some m) l = Some m'
        ∧ (∀ n, m' !! n
                = match m !! n with
                  | Some c => Some (c + countNamed n l)%nat
                  | None => if decide (countNamed n l = 0%nat) then None
                            else Some (countNamed n l)
                  end)
        ∧ Basic.materialsTotal m'
          = (Basic.materialsTotal m + length (filter (λ r, hasName r) l))%nat.
Proof.
  intros Hl. revert m. induction Hl as [|r l Hr _ IH]; intros m.
  - exists m. split; [done|]. split; [|simpl; lia].
    intros n. unfold countNamed; simpl. destruct (m !! n); [|done]. f_equal. lia.
  - destruct (basic_tallyRecord_plain m r Hr) as (m1 & H1 & Hl1 & Ht1).
    destruct (IH m1) as (m' & H' & Hl' & Ht').
    exists m'. cbn [foldl mbind option_bind]. rewrite H1. split; [done|]. split.
    + intros n. rewrite Hl', Hl1, countNamed_cons.
      case_bool_decide; simpl; destruct (m !! n); simpl; try done; f_equal; lia.
    + rewrite Ht', Ht1, filter_cons.
      destruct (decide (hasName r)) as [Hq|Hq]; destruct (hasName r); simpl;
        naive_solver lia.
Qed.

(** A successful import of the basic revision, on a document without
    inherited names. *)
Lemma basic_import_plain st fname bs fl :
  plainNamed bs →
  ∃ st', Basic.handleFileImport
           (Some (mkFile fname (Parsed (mkDocument (Arr bs) fl)))) st = Some st'
         ∧ (∀ n, Basic.materials st' !! n
                 = if decide (countNamed n bs = 0%nat) then None
                   else Some (countNamed n bs))
         ∧ Basic.materialsTotal (Basic.materials st')
           = length (filter (λ r, hasName r) bs).
Proof.
  intros Hbs. destruct (basic_tally_plain bs ∅ Hbs) as (m' & Hm' & Hl & Ht).
  simpl. unfold Basic.countMaterials. rewrite Hm'. simpl.
  eexists. split; [done|]. simpl. split.
  - intros n. by rewrite Hl, lookup_empty.
  - rewrite Ht. unfold Basic.materialsTotal. by rewrite map_to_list_empty.
Qed.

End BasicAggregator.

(** C1, as stated, fails on the basic revision (src/src/App.tsx), which
    has no "empty" filter: a block named air_empty is counted. *)
Lemma basic_counts_empty_names :
  plainNamed [mkBlock 0 0 0 (Some "air_empty")]
  ∧ ∃ tally,
      Basic.materials
        <$> Basic.handleFileImport (Some (mkFile "prefab.json" (Parsed air_empty_doc)))
              (Basic.mkState ∅ "" NoError)
      = Some tally
      ∧ ¬ TallyCountsQualifying (λ n, tally !! n) (Basic.materialsTotal tally)
            air_empty_doc [mkBlock 0 0 0 (Some "air_empty")].
Proof.
  split; [solve_plainNamed|].
  exists {[ "air_empty" := 1%nat ]}. split; [by vm_compute|].
  intros [_ Htotal]. vm_compute in Htotal. discriminate.
Qed.

(** C1 (amended). For every document whose [blocks] is an array and
    none of whose records carries a name that an object inherits:
    - in the revisions of unnamed/part_000, the tally gives each name the
      number of records with that exact name in the blocks array and in
      the fluids array (when it is an array), counting only records
      whose name is present, non-empty and free of "empty" once
      lowercased; the sum of the counts is the number of such block
      records plus the number of such fluid records;
    - in the basic revision, src/src/App.tsx, which reads no fluids and
      filters nothing, the tally gives each name the number of block
      records with that exact non-empty name, and the sum of the counts
      is the number of block records with a non-empty name. *)
Theorem tally_counts (fname : string) (bs : list Block) (fl : Field) :
  let json := mkDocument (Arr bs) fl in
  let file := mkFile fname (Parsed json) in
  plainNamed (bs ++ fluidRecords json) →
  (∀ st,
     let tally := materials (handleFileImport (Some file) st) in
     TallyCountsQualifying (λ n, count <$> tally !! n) (materialsTotal tally) json bs)
  ∧ (∀ st, ∃ st',
       Basic.handleFileImport (Some file) st = Some st'
       ∧ let tally := Basic.materials st' in
         (∀ n, tally !! n
               = if decide (countNamed n bs = 0%nat) then None
                 else Some (countNamed n bs))
         ∧ Basic.materialsTotal tally = length (filter (λ r, hasName r) bs)).
Proof.
  intros json file [Hbs Hfs]%plainNamed_app. split.
  - intros st tally; subst tally.
    unfold file, json. rewrite handleFileImport_materials. split.
    + intros n. rewrite countMaterials_lookup. fold json.
      destruct (JS.inherited n) eqn:Hi.
      { by rewrite !(plainNamed_occurrences n) by done. }
      simpl.
      destruct (decide (occurrences n bs = 0%nat)) as [->|Hb]; simpl.
      * by destruct (decide (occurrences n (fluidRecords json) = 0%nat)).
      * destruct (decide _) as [Hk|Hk]; [lia|done].
    + rewrite countMaterials_total. fold json.
      by rewrite !talliedRecords_plain by done.
  - intros st. by apply basic_import_plain.
Qed.

(** C1 on scenario 1: no name of the four blocks is an inherited one. *)
Lemma tally_counts_stone :
  plainNamed ([mkBlock 0 0 0 (Some "stone"); mkBlock 1 0 0 (Some "dirt");
               mkBlock 2 0 0 (Some "stone"); mkBlock 3 0 0 (Some "oak_log")]
              ++ fluidRecords stone_doc)
  ∧ TallyCountsQualifying
      (λ n, count <$> materials (handleFileImport (Some stone_file) emptyState) !! n)
      (materialsTotal (materials (handleFileImport (Some stone_file) emptyState)))
      stone_doc
      [mkBlock 0 0 0 (Some "stone"); mkBlock 1 0 0 (Some "dirt");
       mkBlock 2 0 0 (Some "stone"); mkBlock 3 0 0 (Some "oak_log")].
Proof.
  assert (plainNamed ([mkBlock 0 0 0 (Some "stone"); mkBlock 1 0 0 (Some "dirt");
                       mkBlock 2 0 0 (Some "stone"); mkBlock 3 0 0 (Some "oak_log")]
                      ++ fluidRecords stone_doc)) as Hp.
  { solve_plainNamed. }
  split; [exact Hp|].
  exact (proj1 (tally_counts "stone.json" _ Absent Hp) emptyState).
Defined.

(** When a name that counts and is not an inherited one occurs both in
    the blocks array and in the fluids array, the tally has one entry
    for it, whose count is the total over both lists and whose category
    is [block], the list scanned first. *)
Lemma shared_name_entry (st : AppState) (fname : string)
    (bs fs : list Block) (n : string) :
  JS.inherited n = false →
  (0 < occurrences n bs)%nat →
  (0 < occurrences n fs)%nat →
  materials (handleFileImport
               (Some (mkFile fname (Parsed (mkDocument (Arr bs) (Arr fs))))) st) !! n
  = Some (mkInfo (occurrences n bs + occurrences n fs) block).
Proof.
  intros Hi Hb Hf. rewrite handleFileImport_materials, countMaterials_lookup, Hi.
  destruct (decide (occurrences n bs = 0%nat)); [lia|done].
Qed.

(** Scenario 5: one [water] block and one [water] fluid give count 2
    and category [block]. *)
Example shared_name_water :
  JS.inherited "water" = false
  ∧ (0 < occurrences "water" water_blocks)%nat
  ∧ (0 < occurrences "water" water_fluids)%nat
  ∧ materials (handleFileImport (Some water_file) emptyState) !! "water"
    = Some (mkInfo 2 block).
Proof.
  assert (0 < occurrences "water" water_blocks)%nat as Hb by (vm_compute; lia).
  assert (0 < occurrences "water" water_fluids)%nat as Hf by (vm_compute; lia).
  split; [done|]. split; [exact Hb|]. split; [exact Hf|].
  exact (shared_name_entry emptyState "water.json" water_blocks water_fluids
           "water" eq_refl Hb Hf).
Qed.

(** C4, on the code: a name that the tally object inherits, here
    constructor, carried by one counting block and one counting fluid.
    [materialCounts[name]] reads the inherited function, so neither loop
    makes an entry and both increments are lost: the tally is empty,
    where one entry with count 2 and category [block] is due. *)
Lemma shared_inherited_name_lost :
  let tally := materials (handleFileImport (Some constructor_file) emptyState) in
  qualifying constructor_blocks = constructor_blocks
  ∧ qualifying constructor_fluids = constructor_fluids
  ∧ occurrences "constructor" constructor_blocks = 1%nat
  ∧ occurrences "constructor" constructor_fluids = 1%nat
  ∧ tally !! "constructor" = None
  ∧ tally = ∅
  ∧ materialsTotal tally = 0%nat.
Proof. vm_compute. done. Qed.

(** The whole tally of scenario 5 is that single entry. *)
Example water_tally :
  materials (handleFileImport (Some water_file) emptyState)
  = {[ "water" := mkInfo 2 block ]}.
Proof. vm_compute. reflexivity. Qed.

(** ** Import errors *)

(** A text that does not parse clears the tally and the block list. *)
Lemma parse_error_clears (st : AppState) (fname message : string) :
  let st' := handleFileImport (Some (mkFile fname (Throws message))) st in
  materials st' = ∅ ∧ blocks st' = [] ∧ error st' = ParseError message.
Proof. done. Qed.

(** A document without a [blocks] array clears the tally only: the block
    list is the one of the state before. *)
Lemma schema_error_keeps_blocks (st : AppState) (fname : string) (fl : Field) :
  (let st' := handleFileImport
                (Some (mkFile fname (Parsed (mkDocument Absent fl)))) st in
   materials st' = ∅ ∧ blocks st' = blocks st ∧ error st' = SchemaError)
  ∧ (let st' := handleFileImport
                  (Some (mkFile fname (Parsed (mkDocument NotArray fl)))) st in
     materials st' = ∅ ∧ blocks st' = blocks st ∧ error st' = SchemaError).
Proof. done. Qed.

(** C3, on the code: after the import of scenario 1, the import of a
    document without [blocks] empties the tally and leaves the four
    imported blocks in the state. *)
Lemma schema_error_stale_blocks :
  let st := handleFileImport (Some stone_file) emptyState in
  let st' := handleFileImport (Some wrongKey_file) st in
  materials st' = ∅ ∧ error st' = SchemaError
  ∧ blocks st' = blocks st ∧ totalBlocks st' = 4%nat.
Proof. vm_compute. done. Qed.

(** ** Global bounds *)

Section Bounds.

Lemma Math_min_fold vs v :
  JS.Math_min v vs ∈ v :: vs
  ∧ JS.Math_min v vs ≤ v ∧ ∀ w, w ∈ vs → JS.Math_min v vs ≤ w.
Proof.
  unfold JS.Math_min. revert v. induction vs as [|u vs IH]; intros v; simpl.
  - split; [by left|]. split; [lia|]. by intros w ?%elem_of_nil.
  - destruct (IH (Z.min v u)) as (Hin & Hle & Hall). split; [|split].
    + apply elem_of_cons in Hin as [Hin|Hin].
      * rewrite Hin. destruct (Z.min_spec v u) as [[_ ->]|[_ ->]].
        -- by left.
        -- right. by left.
      * do 2 right. done.
    + lia.
    + intros w [->|Hw]%elem_of_cons; [lia|by apply Hall].
Qed.

Lemma Math_max_fold vs v :
  JS.Math_max v vs ∈ v :: vs
  ∧ v ≤ JS.Math_max v vs ∧ ∀ w, w ∈ vs → w ≤ JS.Math_max v vs.
Proof.
  unfold JS.Math_max. revert v. induction vs as [|u vs IH]; intros v; simpl.
  - split; [by left|]. split; [lia|]. by intros w ?%elem_of_nil.
  - destruct (IH (Z.max v u)) as (Hin & Hle & Hall). split; [|split].
    + apply elem_of_cons in Hin as [Hin|Hin].
      * rewrite Hin. destruct (Z.max_spec v u) as [[_ ->]|[_ ->]].
        -- right. by left.
        -- by left.
      * do 2 right. done.
    + lia.
    + intros w [->|Hw]%elem_of_cons; [lia|by apply Hall].
Qed.

Lemma Math_min_spec vs v : isMinOf (JS.Math_min v vs) (v :: vs).
Proof.
  destruct (Math_min_fold vs v) as (Hin & Hle & Hall). split; [done|].
  intros w [->|Hw]%elem_of_cons; [done|by apply Hall].
Qed.

Lemma Math_max_spec vs v : isMaxOf (JS.Math_max v vs) (v :: vs).
Proof.
  destruct (Math_max_fold vs v) as (Hin & Hle & Hall). split; [done|].
  intros w [->|Hw]%elem_of_cons; [done|by apply Hall].
Qed.

End Bounds.

(** C5. The global bounds are the least and the greatest [x] and the
    least and the greatest [z] over all the blocks of the list, whatever
    their [y] and whatever layer is selected; for the empty list they
    are the single cell [minX = maxX = minZ = maxZ = 0]. *)
Theorem globalBounds_spec (st : AppState) :
  match blocks st with
  | [] => getGlobalGridBounds st = mkBounds 0 0 0 0
  | _ :: _ =>
      let gb := getGlobalGridBounds st in
      isMinOf (minX gb) (x <$> blocks st) ∧ isMaxOf (maxX gb) (x <$> blocks st)
      ∧ isMinOf (minZ gb) (z <$> blocks st) ∧ isMaxOf (maxZ gb) (z <$> blocks st)
  end
  ∧ ∀ layer, getGlobalGridBounds (setSelectedLayer layer st) = getGlobalGridBounds st.
Proof.
  split; [|done]. unfold getGlobalGridBounds.
  destruct (blocks st) as [|b bs]; [done|]. simpl.
  eauto using Math_min_spec, Math_max_spec.
Qed.

(** Scenario 6: blocks at (0,0,0) and (2,0,3). *)
Example globalBounds_scenario6 :
  getGlobalGridBounds
    (setBlocks [mkBlock 0 0 0 (Some "stone"); mkBlock 2 0 3 (Some "dirt")] emptyState)
  = mkBounds 0 2 0 3.
Proof. reflexivity. Qed.

(** ** Colour priming *)

Section Colors.

Lemma generateColorFromName_truthy n : JS.truthy (generateColorFromName n) = true.
Proof. reflexivity. Qed.

Lemma colorRecord_lookup acc r n :
  (colorRecord acc r).1 !! n
  = if bool_decide (asksColor n r) && negb (hasColor acc.1 n)
    then Some (generateColorFromName n)
    else acc.1 !! n.
Proof.
  unfold colorRecord, asksColor. case_bool_decide as Hc; simpl.
  - destruct Hc as [-> Hn]. destruct (JS.truthy n); [|done]. simpl.
    destruct (hasColor acc.1 n); simpl; [done|]. by rewrite lookup_insert_eq.
  - destruct (name r) as [n'|]; [|done].
    destruct (JS.truthy n') eqn:Ht; simpl; [|done].
    destruct (hasColor acc.1 n'); simpl; [done|].
    rewrite lookup_insert_ne; [done|]. intros ->. apply Hc. by rewrite Ht.
Qed.

Lemma hasColor_colorRecord acc r n :
  hasColor (colorRecord acc r).1 n
  = hasColor acc.1 n || bool_decide (asksColor n r).
Proof.
  unfold hasColor at 1. rewrite colorRecord_lookup.
  destruct (bool_decide (asksColor n r)), (hasColor acc.1 n) eqn:Hc; simpl;
    rewrite ?generateColorFromName_truthy; try done; by rewrite ?orb_false_r.
Qed.

Lemma asksColor_cons n r l :
  bool_decide (Exists (asksColor n) (r :: l))
  = bool_decide (asksColor n r) || bool_decide (Exists (asksColor n) l).
Proof. rewrite <- bool_decide_or. apply bool_decide_ext, Exists_cons. Qed.

(** The colour of a name after the whole list was scanned. *)
Lemma colorRecords_lookup l acc n :
  (foldl colorRecord acc l).1 !! n
  = if hasColor acc.1 n then acc.1 !! n
    else if bool_decide (Exists (asksColor n) l) then Some (generateColorFromName n)
    else acc.1 !! n.
Proof.
  revert acc. induction l as [|r l IH]; intros acc.
  - simpl. by destruct (hasColor acc.1 n).
  - cbn [foldl]. rewrite IH, hasColor_colorRecord, colorRecord_lookup, asksColor_cons.
    destruct (hasColor acc.1 n), (bool_decide (asksColor n r)),
      (bool_decide (Exists (asksColor n) l)); done.
Qed.

(** The flag [hasNewColors] stays raised, and stays down only as long as
    [newColors] is the map it was copied from. *)
Lemma colorRecords_flag_true l m : (foldl colorRecord (m, true) l).2 = true.
Proof.
  revert m. induction l as [|r l IH]; intros m; [done|].
  cbn [foldl]. unfold colorRecord at 2. simpl.
  destruct (name r) as [n|]; [|apply IH].
  destruct (JS.truthy n && negb (hasColor m n)); apply IH.
Qed.

Lemma colorRecords_flag_false l m :
  (foldl colorRecord (m, false) l).2 = false →
  (foldl colorRecord (m, false) l).1 = m.
Proof.
  revert m. induction l as [|r l IH]; intros m; [done|].
  cbn [foldl]. unfold colorRecord at 2 4. simpl.
  destruct (name r) as [n|]; [|apply IH].
  destruct (JS.truthy n && negb (hasColor m n)); [|apply IH].
  by rewrite colorRecords_flag_true.
Qed.

Lemma ensureBlockColors_colors bs st :
  blockColors (ensureBlockColors bs st)
  = (foldl colorRecord (blockColors st, false) bs).1.
Proof.
  unfold ensureBlockColors.
  destruct (foldl colorRecord (blockColors st, false) bs) as [m b] eqn:Hf.
  destruct b; [done|]. simpl.
  pose proof (colorRecords_flag_false bs (blockColors st)) as H.
  rewrite Hf in H. symmetry. by apply H.
Qed.

End Colors.

(** C7, as stated, fails for a name that is in the map with the empty
    string, as a store written by other means can hold it: the test
    [!newColors[name]] takes the name for one without a colour, and the
    entry is replaced by the hash colour. *)
Lemma ensureBlockColors_replaces_empty :
  ¬ (∀ (st : AppState) (bs : list Block) (n c : string),
       blockColors st !! n = Some c →
       blockColors (ensureBlockColors bs st) !! n = Some c).
Proof.
  intros H.
  specialize (H (mkState None ∅ "" NoError ∅ [] {[ "dirt" := "" ]} false)
                [mkBlock 0 0 0 (Some "dirt")] "dirt" "" eq_refl).
  vm_compute in H. discriminate.
Qed.

(** C7 (amended). Whatever the colour map and the imported list, a name
    that passes the test of the code (the map holds a non-empty colour
    for it, or it is a name that the map inherits) is left as it is: a
    non-empty colour is kept exactly; a name that does not pass it (it
    is not in the map, or it is there with the empty string) gets the
    hash colour of the name when a block of the list carries it, and is
    left as it was otherwise. *)
Theorem ensureBlockColors_spec (st : AppState) (bs : list Block) (n : string) :
  blockColors (ensureBlockColors bs st) !! n
  = if hasColor (blockColors st) n then blockColors st !! n
    else if bool_decide (Exists (asksColor n) bs) then Some (generateColorFromName n)
    else blockColors st !! n.
Proof. rewrite ensureBlockColors_colors. apply colorRecords_lookup. Qed.

(** Colours that are there stay. *)
Corollary ensureBlockColors_keeps (st : AppState) (bs : list Block) (n c : string) :
  blockColors st !! n = Some c → JS.truthy c = true →
  blockColors (ensureBlockColors bs st) !! n = Some c.
Proof.
  intros Hn Hc. rewrite ensureBlockColors_colors, colorRecords_lookup.
  unfold hasColor. simpl. by rewrite Hn, Hc.
Qed.

(** Every colour the priming step stores is a non-empty string. *)
Lemma ensureBlockColors_allColors (st : AppState) (bs : list Block) :
  allColors (blockColors st) → allColors (blockColors (ensureBlockColors bs st)).
Proof.
  intros Hst n c. rewrite ensureBlockColors_colors, colorRecords_lookup. simpl.
  destruct (hasColor (blockColors st) n); [apply Hst|].
  case_bool_decide; [|apply Hst].
  intros [= <-]. apply generateColorFromName_truthy.
Qed.

Lemma onload_allColors result st :
  allColors (blockColors st) → allColors (blockColors (onload result st)).
Proof.
  intros Hst. destruct result as [message|json]; simpl; [done|].
  destruct (doc_blocks json); simpl; try done.
  by apply ensureBlockColors_allColors.
Qed.

Lemma update_allColors a st :
  allColors (blockColors st) → allColors (blockColors (update a st)).
Proof.
  intros Hst. destruct a as [[f|]|f|result|material|layer]; try done.
  - by apply onload_allColors.
  - by apply onload_allColors.
Qed.

Lemma runEffects_blockColors st ls :
  stored_blockColors (runEffects st ls) = Some (blockColors st)
  ∨ stored_blockColors (runEffects st ls) = stored_blockColors ls.
Proof.
  unfold runEffects, saveCheckedItems, saveMaterials, saveBlockColors, saveBlocks.
  destruct (negb _), (0 <? size (materials st))%nat,
    (0 <? size (blockColors st))%nat, (0 <? length (blocks st))%nat; auto.
Qed.

Lemma mount_blockColors ls :
  blockColors (mount ls).1 = default ∅ (stored_blockColors ls).
Proof. unfold mount. simpl. by destruct (stored_blocks ls). Qed.

Lemma mount_store ls : (mount ls).2 = runEffects (mount ls).1 ls.
Proof. done. Qed.

(** In every state the component can reach, in memory and in the
    store, the colour map holds non-empty colours only: there, a name
    that is in the map is a name that has a colour. *)
Lemma reachable_allColors s :
  Reachable s →
  allColors (blockColors s.1)
  ∧ ∀ m, stored_blockColors s.2 = Some m → allColors m.
Proof.
  assert (∀ ls, (∀ m, stored_blockColors ls = Some m → allColors m) →
            allColors (blockColors (mount ls).1)
            ∧ ∀ m, stored_blockColors (mount ls).2 = Some m → allColors m) as Hmount.
  { intros ls Hls.
    assert (allColors (blockColors (mount ls).1)) as Hst.
    { rewrite mount_blockColors.
      destruct (stored_blockColors ls) as [m|] eqn:Hm; simpl;
        [by apply Hls|by intros n c ?]. }
    split; [done|]. intros m. rewrite mount_store.
    destruct (runEffects_blockColors (mount ls).1 ls) as [-> | ->].
    - by intros [= <-].
    - apply Hls. }
  induction 1 as [|a s Hs [IHst IHls]|s Hs [IHst IHls]].
  - apply Hmount. by intros m [=].
  - split; [by apply update_allColors|]. simpl. intros m.
    destruct (runEffects_blockColors (update a s.1) s.2) as [-> | ->].
    + intros [= <-]. by apply update_allColors.
    + apply IHls.
  - by apply Hmount.
Qed.

(** For every colour map the component can hold, a name that is in the
    map keeps its colour. *)
Corollary ensureBlockColors_reachable s (bs : list Block) (n c : string) :
  Reachable s →
  blockColors s.1 !! n = Some c →
  blockColors (ensureBlockColors bs s.1) !! n = Some c.
Proof.
  intros Hs Hn. apply ensureBlockColors_keeps; [done|].
  destruct (reachable_allColors s Hs) as [Hall _]. by apply (Hall n).
Qed.

(** ** Display order *)

Section SortByKey.

Context {A : Type} (key : A → nat).

Lemma sort_insert_perm x l : JS.sort_insert (descending key) x l ≡ₚ x :: l.
Proof.
  induction l as [|y l IH]; simpl; [done|].
  destruct (descending key x y <=? 0); [done|].
  rewrite IH. apply Permutation_swap.
Qed.

Lemma Array_sort_perm l : JS.Array_sort (descending key) l ≡ₚ l.
Proof.
  induction l as [|x l IH]; simpl; [done|].
  unfold JS.Array_sort in *. simpl. by rewrite sort_insert_perm, IH.
Qed.

Lemma sort_insert_HdRel x y l :
  keyGe key y x → HdRel (keyGe key) y l →
  HdRel (keyGe key) y (JS.sort_insert (descending key) x l).
Proof.
  intros Hyx Hl. destruct l as [|w l]; simpl.
  - by constructor.
  - destruct (descending key x w <=? 0); constructor; [done|].
    by inversion Hl.
Qed.

Lemma sort_insert_Sorted x l :
  Sorted (keyGe key) l → Sorted (keyGe key) (JS.sort_insert (descending key) x l).
Proof.
  induction 1 as [|y l Hs IH Hhd]; simpl.
  - by repeat constructor.
  - destruct (descending key x y <=? 0) eqn:Hc.
    + constructor; [by constructor|]. constructor.
      apply Z.leb_le in Hc. unfold descending in Hc. unfold keyGe. lia.
    + constructor; [done|]. apply sort_insert_HdRel; [|done].
      apply Z.leb_gt in Hc. unfold descending in Hc. unfold keyGe. lia.
Qed.

Lemma Array_sort_Sorted l : Sorted (keyGe key) (JS.Array_sort (descending key) l).
Proof.
  unfold JS.Array_sort. induction l as [|x l IH]; simpl; [constructor|].
  by apply sort_insert_Sorted.
Qed.



End SortByKey.

(** The displayed rows are the entries of the tally, each once. *)
Lemma sortedMaterials_perm (m : Materials) : sortedMaterials m ≡ₚ map_to_list m.
Proof. apply (Array_sort_perm (λ e, count e.2)). Qed.


(** Scenario 1: stone, counted twice, comes first. *)
Example sortedMaterials_scenario1 :
  head (sortedMaterials (materials (handleFileImport (Some stone_file) emptyState)))
  = Some ("stone", mkInfo 2 block).
Proof. vm_compute. reflexivity. Qed.

(** ** The layer grid *)

Section CellKeys.

Lemma pretty_N_char_commaFree n : pretty_N_char n ≠ ","%char.
Proof. unfold pretty_N_char. by repeat case_match. Qed.

Lemma pretty_N_go_commaFree n s : commaFree s → commaFree (pretty_N_go n s).
Proof.
  revert s. induction (N.lt_wf_0 n) as [n _ IH]; intros s Hs.
  destruct (decide (n = 0%N)) as [->|Hn]; [by rewrite pretty_N_go_0|].
  rewrite pretty_N_go_step by lia. apply IH.
  - apply N.div_lt; lia.
  - split; [apply pretty_N_char_commaFree|done].
Qed.

Lemma pretty_N_commaFree (n : N) : commaFree (pretty n).
Proof.
  unfold pretty, pretty_N. case_decide; [by split|].
  by apply pretty_N_go_commaFree.
Qed.

Lemma numberToString_commaFree v : commaFree (JS.numberToString v).
Proof.
  unfold JS.numberToString, pretty, pretty_Z. destruct v as [|p|p].
  - by split.
  - apply pretty_N_commaFree.
  - split; [done|]. apply pretty_N_commaFree.
Qed.

(** Two strings cut at their first comma agree part by part. *)
Lemma comma_split s1 s2 t1 t2 :
  commaFree s1 → commaFree s2 →
  s1 +:+ "," +:+ t1 = s2 +:+ "," +:+ t2 → s1 = s2 ∧ t1 = t2.
Proof.
  revert s2. induction s1 as [|c s1 IH]; intros [|d s2]; simpl.
  - intros _ _ [= Ht]. by subst.
  - intros _ [Hd _] [= Hc _]. by subst.
  - intros [Hc _] _ [= Hd _]. by subst.
  - intros [_ H1] [_ H2] [= Hc Heq]. destruct (IH s2 H1 H2 Heq) as [Hs Ht]. by subst.
Qed.

(** Distinct cells have distinct keys. *)
Lemma cellKey_inj cx cz cx' cz' :
  cellKey cx cz = cellKey cx' cz' → cx = cx' ∧ cz = cz'.
Proof.
  unfold cellKey. intros Heq.
  apply comma_split in Heq as [Hx Hz]; try apply numberToString_commaFree.
  split; by apply (inj pretty).
Qed.

End CellKeys.

Section Grid.

Lemma gridMap_fold (l : list Block) (m : gmap string Block) (k : string) :
  foldl (λ map b, <[cellKey (x b) (z b) := b]> map) m l !! k
  = match last (filter (λ b, cellKey (x b) (z b) = k) l) with
    | Some b => Some b
    | None => m !! k
    end.
Proof.
  induction l as [|b l IH] using rev_ind; [done|].
  rewrite foldl_app, filter_app. simpl. rewrite filter_cons, filter_nil.
  destruct (decide (cellKey (x b) (z b) = k)) as [<-|Hk].
  - by rewrite lookup_insert_eq, last_snoc.
  - by rewrite lookup_insert_ne, app_nil_r.
Qed.

(** The block of a cell is the last block of the layer that stands on it. *)
Lemma getBlockGridMap_lookup st cx cz :
  getBlockGridMap st !! cellKey cx cz
  = last (filter (λ b, x b = cx ∧ z b = cz) (blocksOnLayer st)).
Proof.
  unfold getBlockGridMap. rewrite gridMap_fold, lookup_empty.
  rewrite (list_filter_iff _ (λ b, x b = cx ∧ z b = cz)).
  - by destruct (last _).
  - intros b. split; [apply cellKey_inj|]. by intros [-> ->].
Qed.

Lemma getBlockGridMap_occupied st cx cz :
  is_Some (getBlockGridMap st !! cellKey cx cz) ↔ (cx, cz) ∈ layerCoords st.
Proof.
  rewrite getBlockGridMap_lookup. unfold layerCoords.
  rewrite list_elem_of_fmap. split.
  - intros [b Hb]. exists b.
    assert (b ∈ filter (λ b, x b = cx ∧ z b = cz) (blocksOnLayer st)) as Hin.
    { apply last_Some in Hb as [l' ->]. apply elem_of_app. right. by left. }
    apply list_elem_of_filter in Hin as [[-> ->] Hin]. done.
  - intros (b & [= -> ->] & Hin).
    destruct (last _) eqn:Hl; [done|]. apply last_None in Hl.
    eapply (filter_nil_not_elem_of _ _ b) in Hl; done.
Qed.

Lemma elem_of_gridCoords gb p :
  p ∈ gridCoords gb ↔ minX gb ≤ p.1 ≤ maxX gb ∧ minZ gb ≤ p.2 ≤ maxZ gb.
Proof.
  unfold gridCoords. rewrite list_elem_of_bind. split.
  - intros (xIdx & (zIdx & ->%list_elem_of_singleton & Hz%elem_of_seqZ)%list_elem_of_bind
              & Hx%elem_of_seqZ). simpl. lia.
  - intros [Hx Hz]. exists (p.1 - minX gb). split; [|apply elem_of_seqZ; lia].
    apply list_elem_of_bind. exists (p.2 - minZ gb). split; [|apply elem_of_seqZ; lia].
    apply list_elem_of_singleton. destruct p as [px pz]. simpl. f_equal; lia.
Qed.

Lemma NoDup_gridCoords gb : NoDup (gridCoords gb).
Proof.
  unfold gridCoords. apply NoDup_bind; [| |apply NoDup_seqZ].
  - intros x1 x2 p _ _.
    intros (z1 & ->%list_elem_of_singleton & _)%list_elem_of_bind.
    intros (z2 & [= ? ?]%list_elem_of_singleton & _)%list_elem_of_bind. lia.
  - intros xIdx _. apply NoDup_bind; [| |apply NoDup_seqZ].
    + intros z1 z2 p _ _ ->%list_elem_of_singleton [= ?]%list_elem_of_singleton. lia.
    + intros zIdx _. apply NoDup_singleton.
Qed.

Lemma gridCells_coords st :
  gridCells st
  = match selectedLayer st with
    | Some _ =>
        if (0 <? length (blocksOnLayer st))%nat
        then (λ p, (p.1, p.2, getBlockGridMap st !! cellKey p.1 p.2))
               <$> gridCoords (getGlobalGridBounds st)
        else []
    | None => []
    end.
Proof.
  unfold gridCells, gridCoords. destruct (selectedLayer st); [|done].
  destruct (0 <? length (blocksOnLayer st))%nat; [|done].
  generalize (seqZ 0 (maxX (getGlobalGridBounds st) - minX (getGlobalGridBounds st) + 1)).
  generalize (seqZ 0 (maxZ (getGlobalGridBounds st) - minZ (getGlobalGridBounds st) + 1)).
  intros zs xs. induction xs as [|a xs IH]; [done|].
  rewrite !bind_cons, fmap_app, IH. f_equal.
  clear IH. induction zs as [|b zs IH]; [done|].
  rewrite !bind_cons, fmap_app, IH. done.
Qed.

Lemma length_filter_fmap {A B} (f : A → B) (P : B → Prop)
    `{!∀ y, Decision (P y)} (l : list A) :
  length (filter P (f <$> l)) = length (filter (λ a, P (f a)) l).
Proof.
  induction l as [|a l IH]; [done|].
  rewrite fmap_cons, !filter_cons. destruct (decide (P (f a))); simpl; by rewrite IH.
Qed.

(** Every block lies within the global bounds. *)
Lemma block_in_bounds st b :
  b ∈ blocks st →
  let gb := getGlobalGridBounds st in
  minX gb ≤ x b ≤ maxX gb ∧ minZ gb ≤ z b ≤ maxZ gb.
Proof.
  intros Hb. unfold getGlobalGridBounds.
  destruct (blocks st) as [|b0 bs] eqn:Hbs; [by apply elem_of_nil in Hb|]. simpl.
  assert (x b ∈ x <$> b0 :: bs) as Hx by by apply list_elem_of_fmap_2.
  assert (z b ∈ z <$> b0 :: bs) as Hz by by apply list_elem_of_fmap_2.
  destruct (Math_min_spec (x <$> bs) (x b0)) as [_ H1].
  destruct (Math_max_spec (x <$> bs) (x b0)) as [_ H2].
  destruct (Math_min_spec (z <$> bs) (z b0)) as [_ H3].
  destruct (Math_max_spec (z <$> bs) (z b0)) as [_ H4].
  specialize (H1 _ Hx). specialize (H2 _ Hx).
  specialize (H3 _ Hz). specialize (H4 _ Hz). lia.
Qed.

Lemma layerCoords_in_grid st p :
  p ∈ layerCoords st → p ∈ gridCoords (getGlobalGridBounds st).
Proof.
  unfold layerCoords, blocksOnLayer. intros (b & -> & Hb)%list_elem_of_fmap.
  destruct (selectedLayer st); [|by apply elem_of_nil in Hb].
  apply list_elem_of_filter in Hb as [_ Hb].
  apply elem_of_gridCoords. by apply block_in_bounds.
Qed.

(** The cells drawn as occupied are the distinct cells of the layer. *)
Lemma occupiedCells_distinct st :
  occupiedCells st = length (remove_dups (layerCoords st)).
Proof.
  unfold occupiedCells. rewrite gridCells_coords.
  assert (blocksOnLayer st = [] → length (remove_dups (layerCoords st)) = 0%nat) as Hnil.
  { unfold layerCoords. by intros ->. }
  destruct (selectedLayer st) eqn:Hsel.
  2: { rewrite Hnil; [done|]. unfold blocksOnLayer. by rewrite Hsel. }
  destruct (blocksOnLayer st) as [|b0 l0] eqn:Hl; [by rewrite Hnil|].
  rewrite <- Hl. replace (0 <? length (blocksOnLayer st))%nat with true
    by (by rewrite Hl).
  rewrite length_filter_fmap. simpl.
  apply Permutation_length, NoDup_Permutation.
  - apply NoDup_filter, NoDup_gridCoords.
  - apply NoDup_remove_dups.
  - intros [cx cz]. rewrite list_elem_of_filter, elem_of_remove_dups. simpl.
    rewrite getBlockGridMap_occupied. split; [by intros [? _]|].
    intros Hin. split; [done|]. by apply layerCoords_in_grid.
Qed.

End Grid.

(** C6. On the selected layer, the lookup gives each cell [(x, z)] at
    most one block: the last block of the layer, in input order, that
    stands on the cell, if any; and the number of cells drawn as
    occupied is the number of distinct [(x, z)] pairs among the blocks
    of the layer. *)
Theorem blockGridMap_last_wins (st : AppState) :
  (∀ cx cz,
     getBlockGridMap st !! cellKey cx cz
     = last (filter (λ b, x b = cx ∧ z b = cz) (blocksOnLayer st)))
  ∧ occupiedCells st = length (remove_dups (layerCoords st)).
Proof.
  split; [apply getBlockGridMap_lookup|apply occupiedCells_distinct].
Qed.

(** Scenario 6: two occupied cells on layer 0; a second block on a cell
    replaces the first. *)
Example occupiedCells_scenario6 :
  let st := setSelectedLayer (Some 0)
              (setBlocks [mkBlock 0 0 0 (Some "stone"); mkBlock 2 0 3 (Some "dirt");
                          mkBlock 0 0 0 (Some "sand")] emptyState) in
  occupiedCells st = 2%nat ∧ length (gridCells st) = 12%nat
  ∧ getBlockGridMap st !! "0,0" = Some (mkBlock 0 0 0 (Some "sand")).
Proof. vm_compute. done. Qed.

(** ** Total Blocks *)

(** C10. In the layer-aware revision, "Total Blocks" on the Block Count
    tab is the length of the imported blocks array as it is, records
    named with "empty" and records without a name included; on
    [mixed_doc] it is 3 while the counts of the tally sum to 1. *)
Theorem totalBlocks_raw_length (st : AppState) (fname : string)
    (bs : list Block) (fl : Field) :
  totalBlocks (handleFileImport
                 (Some (mkFile fname (Parsed (mkDocument (Arr bs) fl)))) st)
  = length bs
  ∧ (let st' := handleFileImport (Some (mkFile fname (Parsed mixed_doc))) st in
     totalBlocks st' = 3%nat ∧ materialsTotal (materials st') = 1%nat).
Proof.
  split.
  - unfold totalBlocks. by rewrite handleFileImport_blocks.
  - unfold mixed_doc. split.
    + unfold totalBlocks. by rewrite handleFileImport_blocks.
    + rewrite handleFileImport_materials, countMaterials_total. reflexivity.
Qed.

(** ** Persistence *)

Section Persistence.

Lemma ensureBlockColors_loading bs st :
  isLoadingFromStorage (ensureBlockColors bs st) = isLoadingFromStorage st.
Proof.
  unfold ensureBlockColors.
  destruct (foldl colorRecord (blockColors st, false) bs) as [m []]; done.
Qed.

Lemma onload_loading result st :
  isLoadingFromStorage (onload result st) = isLoadingFromStorage st.
Proof.
  destruct result as [message|json]; simpl; [done|].
  destruct (doc_blocks json); simpl; try done.
  by rewrite ensureBlockColors_loading.
Qed.

Lemma update_loading a st :
  isLoadingFromStorage (update a st) = isLoadingFromStorage st.
Proof.
  destruct a as [[f|]|f|result|material|layer]; try done.
  - apply (onload_loading _ (chooseFile f st)).
  - apply onload_loading.
Qed.

(** Once mounted, the component is no longer loading. *)
Lemma run_loading ls actions : isLoadingFromStorage (run ls actions).1 = false.
Proof.
  unfold run. induction actions as [|a actions IH] using rev_ind.
  - simpl. by destruct (stored_blocks ls).
  - rewrite foldl_app. simpl. by rewrite update_loading.
Qed.

(** What the four effects leave in the store. *)
Lemma runEffects_spec st ls :
  let ls' := runEffects st ls in
  stored_checkedItems ls'
  = (if isLoadingFromStorage st then stored_checkedItems ls else Some (checkedItems st))
  ∧ stored_materials ls'
    = (if decide (materials st = ∅) then stored_materials ls else Some (materials st))
  ∧ stored_blocks ls'
    = (if decide (blocks st = []) then stored_blocks ls else Some (blocks st))
  ∧ stored_blockColors ls'
    = (if decide (blockColors st = ∅) then stored_blockColors ls
       else Some (blockColors st)).
Proof.
  unfold runEffects, saveCheckedItems, saveMaterials, saveBlockColors, saveBlocks.
  assert (∀ {V} (m : gmap string V),
            (0 <? size m)%nat = if decide (m = ∅) then false else true) as Hsize.
  { intros V m. destruct (decide (m = ∅)) as [->|Hm].
    - by rewrite map_size_empty.
    - apply Nat.ltb_lt. apply map_size_non_empty_iff in Hm. lia. }
  rewrite !Hsize.
  destruct (isLoadingFromStorage st), (decide (materials st = ∅)),
    (decide (blockColors st = ∅)), (blocks st); simpl; repeat split;
    try done; by case_decide.
Qed.

End Persistence.

(** C9, as stated, fails: after the import of scenario 1, an import that
    does not parse empties the tally and the block list in memory, and
    the store keeps the tally and the blocks of scenario 1. *)
Lemma store_keeps_cleared_state :
  let s1 := run emptyStorage [Import (Some stone_file)] in
  let s2 := dispatch (Import (Some broken_file)) s1 in
  StoreMirrors s1.1 s1.2
  ∧ materials s2.1 = ∅ ∧ blocks s2.1 = []
  ∧ stored_materials s2.2 = Some (materials s1.1)
  ∧ stored_blocks s2.2 = Some (blocks s1.1)
  ∧ ¬ StoreMirrors s2.1 s2.2.
Proof.
  vm_compute. repeat split; try done. by intros [[=] _].
Qed.

(** C9 (amended). After every action on the mounted component, the
    store holds the checkbox map of the new state; it holds the new
    tally map, block list and colour map when they are not empty, and
    keeps the entry it had before when the new value is empty. *)
Theorem store_after_dispatch (ls0 : Storage) (actions : list Action) (a : Action) :
  let s := run ls0 actions in
  let s' := dispatch a s in
  stored_checkedItems s'.2 = Some (checkedItems s'.1)
  ∧ stored_materials s'.2
    = (if decide (materials s'.1 = ∅) then stored_materials s.2
       else Some (materials s'.1))
  ∧ stored_blocks s'.2
    = (if decide (blocks s'.1 = []) then stored_blocks s.2 else Some (blocks s'.1))
  ∧ stored_blockColors s'.2
    = (if decide (blockColors s'.1 = ∅) then stored_blockColors s.2
       else Some (blockColors s'.1)).
Proof.
  intros s s'. subst s'. unfold dispatch. cbn [fst snd].
  pose proof (runEffects_spec (update a s.1) s.2) as H.
  rewrite update_loading in H. subst s.
  rewrite run_loading in H. exact H.
Qed.

(** * Further properties *)

(** ** The layer selector *)

Section Layers.

(** [Array_from_Set] keeps one copy of every value. *)
Lemma Array_from_Set_fold (values acc : list Z) :
  NoDup acc →
  let r := foldl (λ acc v, if decide (v ∈ acc) then acc else acc ++ [v]) acc values in
  NoDup r ∧ ∀ v, v ∈ r ↔ v ∈ acc ∨ v ∈ values.
Proof.
  revert acc. induction values as [|w values IH]; intros acc Hacc; simpl.
  - split; [done|]. intros v. rewrite elem_of_nil. tauto.
  - destruct (decide (w ∈ acc)) as [Hw|Hw].
    + destruct (IH acc Hacc) as [Hn He]. split; [done|].
      intros v. rewrite He, elem_of_cons. split; [tauto|].
      intros [?|[->|?]]; tauto.
    + assert (NoDup (acc ++ [w])) as Hacc'.
      { apply NoDup_app. split; [done|]. split; [|apply NoDup_singleton].
        intros v Hv ->%list_elem_of_singleton. done. }
      destruct (IH _ Hacc') as [Hn He]. split; [done|].
      intros v. rewrite He, elem_of_app, list_elem_of_singleton, elem_of_cons. tauto.
Qed.

Lemma NoDup_Array_from_Set values : NoDup (Array_from_Set values).
Proof. apply (Array_from_Set_fold values []), NoDup_nil_2. Qed.

Lemma elem_of_Array_from_Set values v : v ∈ Array_from_Set values ↔ v ∈ values.
Proof.
  destruct (Array_from_Set_fold values [] NoDup_nil_2) as [_ He].
  unfold Array_from_Set. rewrite He, elem_of_nil. tauto.
Qed.

(** The first occurrences come in the order of the input. *)
Example Array_from_Set_order : Array_from_Set [3; 1; 3; 2; 1] = [3; 1; 2].
Proof. reflexivity. Qed.

(** Sorting with [(a, b) => a - b]. *)
Lemma sort_insert_ascending_perm v l : JS.sort_insert (λ a b, a - b) v l ≡ₚ v :: l.
Proof.
  induction l as [|w l IH]; simpl; [done|].
  destruct (v - w <=? 0); [done|]. rewrite IH. apply Permutation_swap.
Qed.

Lemma Array_sort_ascending_perm l : JS.Array_sort (λ a b, a - b) l ≡ₚ l.
Proof.
  unfold JS.Array_sort. induction l as [|v l IH]; simpl; [done|].
  by rewrite sort_insert_ascending_perm, IH.
Qed.

Lemma sort_insert_ascending_Sorted v l :
  Sorted Z.le l → Sorted Z.le (JS.sort_insert (λ a b, a - b) v l).
Proof.
  induction 1 as [|w l Hs IH Hhd]; simpl.
  - by repeat constructor.
  - destruct (v - w <=? 0) eqn:Hc.
    + constructor; [by constructor|]. constructor. lia.
    + constructor; [done|]. destruct l as [|u l]; simpl.
      * constructor. lia.
      * inversion Hhd; subst. destruct (v - u <=? 0); constructor; lia.
Qed.

Lemma Array_sort_ascending_Sorted l : Sorted Z.le (JS.Array_sort (λ a b, a - b) l).
Proof.
  unfold JS.Array_sort. induction l as [|v l IH]; simpl; [constructor|].
  by apply sort_insert_ascending_Sorted.
Qed.

Lemma Sorted_le_NoDup_lt (l : list Z) : Sorted Z.le l → NoDup l → Sorted Z.lt l.
Proof.
  induction 1 as [|v l Hs IH Hhd]; intros Hn; [constructor|].
  apply NoDup_cons in Hn as [Hv Hn]. constructor; [by apply IH|].
  destruct Hhd as [|w l Hvw]; constructor.
  assert (v ≠ w) by (intros ->; apply Hv; by left). lia.
Qed.

Lemma uniqueLayers_perm st : uniqueLayers st ≡ₚ Array_from_Set (y <$> blocks st).
Proof. apply Array_sort_ascending_perm. Qed.

Lemma elem_of_uniqueLayers st layer :
  layer ∈ uniqueLayers st ↔ ∃ b, b ∈ blocks st ∧ y b = layer.
Proof.
  rewrite uniqueLayers_perm, elem_of_Array_from_Set, list_elem_of_fmap.
  split; intros (b & ? & ?); exists b; done.
Qed.

Lemma NoDup_uniqueLayers st : NoDup (uniqueLayers st).
Proof. rewrite uniqueLayers_perm. apply NoDup_Array_from_Set. Qed.

Lemma sum_indicator (ls : list Z) (v : Z) :
  NoDup ls →
  sum_list_with (λ l, if decide (v = l) then 1%nat else 0%nat) ls
  = if decide (v ∈ ls) then 1%nat else 0%nat.
Proof.
  induction 1 as [|w ls Hw Hn IH]; simpl; [done|]. rewrite IH.
  destruct (decide (v = w)) as [->|Hne].
  - rewrite (decide_False (P := w ∈ ls)) by done.
    by rewrite (decide_True (P := w ∈ w :: ls)) by by left.
  - destruct (decide (v ∈ ls)) as [Hin|Hin].
    + by rewrite (decide_True (P := v ∈ w :: ls)) by by right.
    + rewrite (decide_False (P := v ∈ w :: ls)); [done|].
      by intros [?|?]%elem_of_cons.
Qed.

Lemma filter_Forall_id {A} (P : A → Prop) `{!∀ a, Decision (P a)} (l : list A) :
  Forall P l → filter P l = l.
Proof.
  induction 1 as [|a l Ha Hl IH]; [done|].
  by rewrite filter_cons_True, IH.
Qed.

Lemma sum_layer_counts (ls : list Z) (bs : list Block) :
  NoDup ls →
  sum_list_with (λ l, length (filter (λ b, y b = l) bs)) ls
  = length (filter (λ b, y b ∈ ls) bs).
Proof.
  intros Hn. induction bs as [|b bs IH]; simpl.
  - induction ls as [|? ? IHl]; simpl; [done|].
    apply NoDup_cons in Hn as [_ Hn]. by rewrite IHl.
  - transitivity (sum_list_with
                    (λ l, ((if decide (y b = l) then 1 else 0)
                           + length (filter (λ b, y b = l) bs))%nat) ls).
    { clear. induction ls as [|l ls IHl]; simpl; [done|].
      rewrite IHl, filter_cons. by destruct (decide (y b = l)). }
    assert (∀ f g : Z → nat, sum_list_with (λ l, (f l + g l)%nat) ls
              = (sum_list_with f ls + sum_list_with g ls)%nat) as Hadd.
    { clear. intros f g. induction ls as [|l ls IHl]; simpl; [done|].
      rewrite IHl. lia. }
    rewrite Hadd, IH, sum_indicator by done. rewrite filter_cons.
    by destruct (decide (y b ∈ ls)).
Qed.

End Layers.

(** X1. The layers offered by the selector are the [y] values of the
    blocks, each once, in strictly increasing order; "Total Layers" is
    the number of distinct [y] values. *)
Theorem uniqueLayers_sorted_distinct (st : AppState) :
  Sorted Z.lt (uniqueLayers st)
  ∧ (∀ layer, layer ∈ uniqueLayers st ↔ layer ∈ y <$> blocks st)
  ∧ totalLayers st = length (remove_dups (y <$> blocks st)).
Proof.
  split; [|split].
  - apply Sorted_le_NoDup_lt; [apply Array_sort_ascending_Sorted|].
    apply NoDup_uniqueLayers.
  - intros layer. by rewrite uniqueLayers_perm, elem_of_Array_from_Set.
  - unfold totalLayers. apply Permutation_length, NoDup_Permutation.
    + apply NoDup_uniqueLayers.
    + apply NoDup_remove_dups.
    + intros layer.
      by rewrite uniqueLayers_perm, elem_of_Array_from_Set, elem_of_remove_dups.
Qed.

(** X2. The block counts shown beside the layers of the selector are
    all at least 1 and add up to "Total Blocks": the layers partition
    the block list. *)
Theorem layer_counts_partition (st : AppState) :
  sum_list_with (layerBlockCount st) (uniqueLayers st) = totalBlocks st
  ∧ Forall (λ layer, (1 ≤ layerBlockCount st layer)%nat) (uniqueLayers st).
Proof.
  split.
  - unfold layerBlockCount, totalBlocks.
    rewrite sum_layer_counts by apply NoDup_uniqueLayers.
    f_equal. apply filter_Forall_id, Forall_forall. intros b Hb.
    apply elem_of_uniqueLayers. by exists b.
  - apply Forall_forall. intros layer (b & Hb & Hy)%elem_of_uniqueLayers.
    unfold layerBlockCount.
    assert (b ∈ filter (λ b, y b = layer) (blocks st)) as Hin
      by by apply list_elem_of_filter.
    destruct (filter _ _); [by apply elem_of_nil in Hin|simpl; lia].
Qed.

(** X3. The grid is drawn exactly when the selected layer is one of the
    layers of the selector; a layer selected before an import that no
    block of the new list lies on gives no grid. *)
Theorem showsGrid_iff_layer_listed (st : AppState) :
  showsGrid st
  = match selectedLayer st with
    | Some layer => bool_decide (layer ∈ uniqueLayers st)
    | None => false
    end.
Proof.
  unfold showsGrid, blocksOnLayer. destruct (selectedLayer st) as [layer|]; [|done].
  case_bool_decide as Hl.
  - apply elem_of_uniqueLayers in Hl as (b & Hb & Hy).
    assert (b ∈ filter (λ b, y b = layer) (blocks st)) as Hin
      by by apply list_elem_of_filter.
    destruct (filter _ _); [by apply elem_of_nil in Hin|done].
  - destruct (filter _ _) as [|b l] eqn:Hf; [done|]. exfalso. apply Hl.
    assert (b ∈ filter (λ b, y b = layer) (blocks st)) as Hin
      by (rewrite Hf; by left).
    apply list_elem_of_filter in Hin as [Hy Hb].
    apply elem_of_uniqueLayers. by exists b.
Qed.

(** ** The grid as drawn *)

Section GridLayout.

Lemma bounds_ordered st :
  minX (getGlobalGridBounds st) ≤ maxX (getGlobalGridBounds st)
  ∧ minZ (getGlobalGridBounds st) ≤ maxZ (getGlobalGridBounds st).
Proof.
  unfold getGlobalGridBounds. destruct (blocks st) as [|b bs]; [done|]. simpl.
  destruct (Math_min_fold (x <$> bs) (x b)) as (_ & ? & _).
  destruct (Math_max_fold (x <$> bs) (x b)) as (_ & ? & _).
  destruct (Math_min_fold (z <$> bs) (z b)) as (_ & ? & _).
  destruct (Math_max_fold (z <$> bs) (z b)) as (_ & ? & _). lia.
Qed.

(** Two nested loops over [rows] and [columns] visit the pairs in the
    order of their index [row * columns + column]. *)
Lemma nested_loops_row_major {A} (f : Z → Z → A) (rows : nat) (columns : Z) :
  0 < columns →
  (r ← seqZ 0 (Z.of_nat rows); c ← seqZ 0 columns; [f r c])
  = (λ k, f (k / columns) (k mod columns)) <$> seqZ 0 (Z.of_nat rows * columns).
Proof.
  intros Hc. induction rows as [|rows IH].
  - done.
  - rewrite seqZ_S, bind_app, IH, bind_singleton.
    replace (Z.of_nat (S rows) * columns)
      with (Z.of_nat rows * columns + columns) by lia.
    rewrite seqZ_app, fmap_app by lia. f_equal.
    replace (0 + Z.of_nat rows * columns) with (Z.of_nat rows * columns + 0) by lia.
    rewrite <- (fmap_add_seqZ (Z.of_nat rows * columns) 0 columns).
    rewrite <- list_fmap_compose.
    assert (∀ l : list Z, Forall (λ c, 0 ≤ c < columns) l →
              l ≫= (λ c, [f (0 + Z.of_nat rows) c])
              = ((λ k, f (k / columns) (k mod columns))
                   ∘ Z.add (Z.of_nat rows * columns)) <$> l) as Hl.
    { induction 1 as [|c l Hcl _ IHl]; [done|].
      rewrite bind_cons, fmap_cons, IHl. simpl. f_equal.
      replace (Z.of_nat rows * columns + c)
        with (c + Z.of_nat rows * columns) by lia.
      rewrite Z.div_add, Z.mod_add by lia.
      rewrite Z.div_small, Z.mod_small by lia. done. }
    apply Hl, Forall_forall. intros c Hin%elem_of_seqZ. lia.
Qed.

Lemma gridCoords_row_major st :
  gridCoords (getGlobalGridBounds st)
  = (λ k, (minX (getGlobalGridBounds st) + k / gridColumns st,
           minZ (getGlobalGridBounds st) + k mod gridColumns st))
      <$> seqZ 0 (gridRows st * gridColumns st).
Proof.
  pose proof (bounds_ordered st) as [Hx Hz].
  unfold gridCoords, gridRows, gridColumns.
  set (gb := getGlobalGridBounds st) in *.
  rewrite <- (Z2Nat.id (maxX gb - minX gb + 1)) by lia.
  apply (nested_loops_row_major (λ r c, (minX gb + r, minZ gb + c))). lia.
Qed.

Lemma showsGrid_gridCells st :
  gridCells st
  = if showsGrid st
    then (λ p, (p.1, p.2, getBlockGridMap st !! cellKey p.1 p.2))
           <$> gridCoords (getGlobalGridBounds st)
    else [].
Proof.
  rewrite gridCells_coords. unfold showsGrid. by destruct (selectedLayer st).
Qed.

Lemma length_remove_dups {A} `{EqDecision A} (l : list A) :
  (length (remove_dups l) ≤ length l)%nat
  ∧ (length (remove_dups l) = length l ↔ NoDup l).
Proof.
  induction l as [|a l [IHle IHeq]]; simpl.
  - split; [lia|]. split; [constructor|done].
  - destruct (decide_rel elem_of a l) as [Ha|Ha]; simpl.
    + split; [lia|]. split; [lia|]. by intros [Hn _]%NoDup_cons.
    + split; [lia|]. rewrite NoDup_cons, <- IHeq.
      split; [intros [= ?]; done|intros [_ ->]; done].
Qed.

Lemma gridCells_cellFaithful st : Forall (cellFaithful st) (gridCells st).
Proof.
  rewrite showsGrid_gridCells. destruct (showsGrid st); [|constructor].
  apply Forall_fmap, Forall_forall. intros [cx cz] _.
  unfold cellFaithful. simpl.
  destruct (getBlockGridMap st !! cellKey cx cz) as [b|] eqn:Hb.
  - rewrite getBlockGridMap_lookup in Hb.
    assert (b ∈ filter (λ b, x b = cx ∧ z b = cz) (blocksOnLayer st)) as Hin.
    { apply last_Some in Hb as [l' ->]. apply elem_of_app. right. by left. }
    apply list_elem_of_filter in Hin as [[Hbx Hbz] Hin].
    unfold blocksOnLayer in Hin. destruct (selectedLayer st) as [layer|];
      [|by apply elem_of_nil in Hin].
    apply list_elem_of_filter in Hin as [Hy Hin]. by rewrite Hy.
  - intros Hin%getBlockGridMap_occupied. rewrite Hb in Hin. by destruct Hin.
Qed.

Lemma blocksOnLayer_drawn st :
  Forall (λ b, ∃ b', (x b, z b, Some b') ∈ gridCells st) (blocksOnLayer st).
Proof.
  apply Forall_forall. intros b Hb.
  assert ((x b, z b) ∈ layerCoords st) as Hc.
  { unfold layerCoords. apply list_elem_of_fmap. by exists b. }
  destruct (proj2 (getBlockGridMap_occupied st (x b) (z b)) Hc) as [b' Hb'].
  exists b'. rewrite showsGrid_gridCells.
  assert (showsGrid st = true) as ->.
  { unfold showsGrid. unfold blocksOnLayer in *.
    destruct (selectedLayer st); [|by apply elem_of_nil in Hb].
    destruct (filter _ _); [by apply elem_of_nil in Hb|done]. }
  apply list_elem_of_fmap. exists (x b, z b). simpl. rewrite Hb'.
  split; [done|]. by apply layerCoords_in_grid.
Qed.

End GridLayout.

(** X4. When the grid is drawn it has [gridRows * gridColumns] cells,
    with at least one row and one column, and the cell of index [k] is
    the cell of coordinates [minX + k / gridColumns] and
    [minZ + k mod gridColumns]: in a grid template of [gridColumns]
    columns, [x] grows down the rows and [z] along the columns. *)
Theorem gridCells_row_major (st : AppState) :
  1 ≤ gridRows st ∧ 1 ≤ gridColumns st
  ∧ gridCells st
    = if showsGrid st
      then (λ k, let cx := minX (getGlobalGridBounds st) + k / gridColumns st in
                 let cz := minZ (getGlobalGridBounds st) + k mod gridColumns st in
                 (cx, cz, getBlockGridMap st !! cellKey cx cz))
             <$> seqZ 0 (gridRows st * gridColumns st)
      else [].
Proof.
  pose proof (bounds_ordered st) as [Hx Hz].
  split; [unfold gridRows; lia|]. split; [unfold gridColumns; lia|].
  rewrite showsGrid_gridCells. destruct (showsGrid st); [|done].
  by rewrite gridCoords_row_major, <- list_fmap_compose.
Qed.

(** X5. The React keys of the cells of the grid, [`${x},${z}`], are
    pairwise distinct. *)
Theorem gridCells_keys_distinct (st : AppState) :
  NoDup ((λ c, cellKey c.1.1 c.1.2) <$> gridCells st).
Proof.
  rewrite showsGrid_gridCells. destruct (showsGrid st); [|constructor].
  rewrite <- list_fmap_compose. apply NoDup_fmap_2_strong; [|apply NoDup_gridCoords].
  intros [cx cz] [cx' cz'] _ _ Hk. simpl in Hk.
  by apply cellKey_inj in Hk as [-> ->].
Qed.

(** X6. The grid is faithful to the selected layer: a cell that shows a
    block shows a block of the list that lies on the selected layer and
    stands on that cell, a cell drawn empty has no block of the layer on
    it, and every block of the layer has its cell in the grid, drawn
    occupied. *)
Theorem gridCells_faithful (st : AppState) :
  Forall (cellFaithful st) (gridCells st)
  ∧ Forall (λ b, ∃ b', (x b, z b, Some b') ∈ gridCells st) (blocksOnLayer st).
Proof. split; [apply gridCells_cellFaithful|apply blocksOnLayer_drawn]. Qed.

(** X7. The cells drawn occupied are never more than the blocks
    announced by the line "Layer n: k blocks", and are as many exactly
    when no two blocks of the layer stand on the same cell. *)
Theorem occupiedCells_le_layer_blocks (st : AppState) :
  (occupiedCells st ≤ length (blocksOnLayer st))%nat
  ∧ (occupiedCells st = length (blocksOnLayer st) ↔ NoDup (layerCoords st)).
Proof.
  rewrite occupiedCells_distinct.
  destruct (length_remove_dups (layerCoords st)) as [Hle Heq].
  unfold layerCoords in *. rewrite length_fmap in *. done.
Qed.

(** ** Colours *)

Section MoreColors.

Lemma hsl_hue_decides h :
  hsl (Z.abs h mod 360) (65 + Z.abs h mod 20) (45 + Z.abs h mod 15)
  = hsl (Z.abs h mod 360) (65 + (Z.abs h mod 360) mod 20)
        (45 + (Z.abs h mod 360) mod 15).
Proof.
  rewrite (Z.mod_mod_divide _ 360 20) by (by exists 18).
  by rewrite (Z.mod_mod_divide _ 360 15) by (by exists 24).
Qed.

(** A scan that finds a colour for every named block changes nothing. *)
Lemma colorRecords_covered bs m :
  Forall (hasItsColor m) bs → foldl colorRecord (m, false) bs = (m, false).
Proof.
  induction 1 as [|b bs Hb _ IH]; [done|]. cbn [foldl].
  unfold colorRecord at 2. unfold hasItsColor in Hb. simpl.
  destruct (name b) as [n|]; [|done].
  destruct (JS.truthy n); [|done]. by rewrite Hb.
Qed.

Lemma ensureBlockColors_covered bs st :
  Forall (hasItsColor (blockColors st)) bs → ensureBlockColors bs st = st.
Proof.
  intros H. unfold ensureBlockColors. by rewrite colorRecords_covered.
Qed.

Lemma ensureBlockColors_covers bs st :
  Forall (hasItsColor (blockColors (ensureBlockColors bs st))) bs.
Proof.
  apply Forall_forall. intros b Hb. unfold hasItsColor.
  destruct (name b) as [n|] eqn:Hn; [|done].
  destruct (JS.truthy n) eqn:Ht; [|done].
  unfold hasColor. rewrite ensureBlockColors_colors, colorRecords_lookup. simpl.
  destruct (hasColor (blockColors st) n) eqn:Hc; [done|].
  rewrite bool_decide_eq_true_2; [apply generateColorFromName_truthy|].
  apply Exists_exists. exists b. split; [done|]. split; [done|]. by rewrite Ht.
Qed.

End MoreColors.

(** X8. Every colour is [hsl(hue, s%, l%)] with [0 <= hue < 360],
    [s = 65 + hue mod 20] and [l = 45 + hue mod 15]: saturation and
    lightness follow from the hue, so names share at most 360 colours. *)
Theorem generateColorFromName_by_hue (name : string) :
  ∃ hue, 0 ≤ hue < 360
         ∧ generateColorFromName name = hsl hue (65 + hue mod 20) (45 + hue mod 15).
Proof.
  exists (Z.abs (hashCodes (JS.charCodes name)) mod 360).
  split; [apply Z.mod_pos_bound; lia|].
  unfold generateColorFromName. simpl. rewrite abs_rem, !rem_abs by lia.
  apply hsl_hue_decides.
Qed.

(** X9. After colour priming every block of the list with a non-empty
    name passes the test of the priming loop (the map holds a non-empty
    colour for it, or its name is an inherited one, for which the test
    reads the inherited value), and priming again with the same list
    changes nothing: no second [setBlockColors], hence no re-render or
    write. *)
Theorem ensureBlockColors_covers_once (st : AppState) (bs : list Block) :
  Forall (hasItsColor (blockColors (ensureBlockColors bs st))) bs
  ∧ ensureBlockColors bs (ensureBlockColors bs st) = ensureBlockColors bs st.
Proof.
  split; [apply ensureBlockColors_covers|].
  apply ensureBlockColors_covered, ensureBlockColors_covers.
Qed.

Section ColoursOverSessions.

Lemma update_cases a st :
  (blockColors (update a st) = blockColors st
   ∧ (blocks (update a st) = blocks st ∨ blocks (update a st) = []))
  ∨ ∃ bs, blockColors (update a st) = blockColors (ensureBlockColors bs st)
          ∧ blocks (update a st) = bs.
Proof.
  assert (∀ result st',
            blockColors st' = blockColors st → blocks st' = blocks st →
            (blockColors (onload result st') = blockColors st
             ∧ (blocks (onload result st') = blocks st ∨ blocks (onload result st') = []))
            ∨ ∃ bs, blockColors (onload result st')
                    = blockColors (ensureBlockColors bs st)
                    ∧ blocks (onload result st') = bs) as Hread.
  { intros result st' Hc Hb.
    destruct result as [message|json]; simpl; [left; auto|].
    destruct (doc_blocks json) as [| |bs]; simpl; try (left; auto; fail).
    right. exists bs. split.
    - rewrite !ensureBlockColors_colors. simpl. by rewrite Hc.
    - by rewrite ensureBlockColors_blocks. }
  destruct a as [[f|]|f|result|material|layer]; try (left; auto; fail).
  - by apply (Hread (file_parse f) (chooseFile f st)).
  - by apply Hread.
Qed.

Lemma hashColors_truthy m n c : hashColors m → m !! n = Some c → JS.truthy c = true.
Proof. intros Hm Hn. rewrite (Hm n c Hn). apply generateColorFromName_truthy. Qed.

Lemma ensureBlockColors_hashColors bs st :
  hashColors (blockColors st) → hashColors (blockColors (ensureBlockColors bs st)).
Proof.
  intros Hst n c. rewrite ensureBlockColors_colors, colorRecords_lookup. simpl.
  destruct (hasColor (blockColors st) n); [apply Hst|].
  case_bool_decide; [|apply Hst]. by intros [= <-].
Qed.

Lemma ensureBlockColors_grows bs st n c :
  hashColors (blockColors st) →
  blockColors st !! n = Some c →
  blockColors (ensureBlockColors bs st) !! n = Some c.
Proof.
  intros Hst Hn. apply ensureBlockColors_keeps; [done|].
  by apply (hashColors_truthy (blockColors st) n).
Qed.

Lemma ensureBlockColors_coloured bs st :
  hashColors (blockColors st) →
  coloured (blockColors (ensureBlockColors bs st)) bs.
Proof.
  intros Hst b n Hb Hn Ht Hi.
  pose proof (ensureBlockColors_covers bs st) as Hc.
  rewrite Forall_forall in Hc. specialize (Hc b Hb).
  unfold hasItsColor, hasColor in Hc. rewrite Hn, Ht, Hi in Hc.
  destruct (blockColors (ensureBlockColors bs st) !! n) as [c|] eqn:Hl; [|done].
  f_equal. by apply (ensureBlockColors_hashColors bs st Hst n).
Qed.

(** Priming makes no entry under an inherited name. *)
Lemma ensureBlockColors_inheritedFree bs st :
  inheritedFree (blockColors st) →
  inheritedFree (blockColors (ensureBlockColors bs st)).
Proof.
  intros Hst n Hi. rewrite ensureBlockColors_colors, colorRecords_lookup. simpl.
  unfold hasColor. by rewrite (Hst n Hi), Hi.
Qed.

Lemma coloured_grows (m m' : BlockColors) bs :
  (∀ n c, m !! n = Some c → m' !! n = Some c) → coloured m bs → coloured m' bs.
Proof. intros Hm Hbs b n Hb Hn Ht Hi. apply Hm. by apply (Hbs b). Qed.

Lemma update_colours a st :
  hashColors (blockColors st) →
  inheritedFree (blockColors st) →
  coloured (blockColors st) (blocks st) →
  hashColors (blockColors (update a st))
  ∧ inheritedFree (blockColors (update a st))
  ∧ (∀ n c, blockColors st !! n = Some c → blockColors (update a st) !! n = Some c)
  ∧ coloured (blockColors (update a st)) (blocks (update a st)).
Proof.
  intros Hh Hi Hc. destruct (update_cases a st) as [[-> Hb]|(bs & -> & ->)].
  - split; [done|]. split; [done|]. split; [done|].
    destruct Hb as [-> | ->]; [done|]. by intros b n ?%elem_of_nil.
  - split; [by apply ensureBlockColors_hashColors|].
    split; [by apply ensureBlockColors_inheritedFree|].
    split; [intros n c; by apply ensureBlockColors_grows|].
    by apply ensureBlockColors_coloured.
Qed.

Lemma mount_blocks ls : blocks (mount ls).1 = default [] (stored_blocks ls).
Proof. unfold mount. simpl. by destruct (stored_blocks ls). Qed.

Lemma runEffects_stored st ls :
  default ∅ (stored_blockColors ls) = blockColors st
  ∨ blockColors st ≠ ∅ →
  default ∅ (stored_blockColors (runEffects st ls)) = blockColors st.
Proof.
  destruct (runEffects_spec st ls) as (_ & _ & _ & ->).
  destruct (decide (blockColors st = ∅)) as [He|He]; [|done].
  by intros [?|?].
Qed.

Lemma runEffects_stored_blocks st ls :
  default [] (stored_blocks (runEffects st ls))
  = if decide (blocks st = []) then default [] (stored_blocks ls) else blocks st.
Proof.
  destruct (runEffects_spec st ls) as (_ & _ & -> & _).
  by destruct (decide (blocks st = [])).
Qed.

Lemma mount_coloursInvariant ls :
  hashColors (default ∅ (stored_blockColors ls)) →
  inheritedFree (default ∅ (stored_blockColors ls)) →
  coloured (default ∅ (stored_blockColors ls)) (default [] (stored_blocks ls)) →
  coloursInvariant (mount ls).
Proof.
  intros Hh Hi Hc. unfold coloursInvariant.
  rewrite mount_store, runEffects_stored, runEffects_stored_blocks,
    mount_blockColors, mount_blocks; [|left; by rewrite mount_blockColors].
  repeat split; try done. by destruct (decide _).
Qed.

Lemma dispatch_coloursInvariant a s :
  coloursInvariant s → coloursInvariant (dispatch a s).
Proof.
  intros (Hh & Hi & Hs & Hc & Hsc). unfold coloursInvariant, dispatch. cbn [fst snd].
  destruct (update_colours a s.1 Hh Hi Hc) as (Hh' & Hi' & Hgrow & Hc').
  rewrite runEffects_stored, runEffects_stored_blocks.
  - repeat split; try done. destruct (decide _); [|done].
    by apply (coloured_grows (blockColors s.1)).
  - destruct (decide (blockColors (update a s.1) = ∅)) as [He|He]; [|by right].
    left. rewrite Hs, He. apply map_eq. intros n. rewrite lookup_empty.
    destruct (blockColors s.1 !! n) as [c|] eqn:Hn; [|done].
    apply Hgrow in Hn. by rewrite He, lookup_empty in Hn.
Qed.

Lemma sessions_coloursInvariant events : coloursInvariant (sessions events).
Proof.
  unfold sessions. induction events as [|e events IH] using rev_ind.
  - apply mount_coloursInvariant; simpl;
      [by intros n c|by intros n _|by intros b n ?%elem_of_nil].
  - rewrite foldl_app. simpl. destruct e as [a|]; simpl.
    + by apply dispatch_coloursInvariant.
    + destruct IH as (Hh & Hi & Hs & Hc & Hsc).
      apply mount_coloursInvariant; by rewrite Hs.
Qed.

End ColoursOverSessions.


(** ** The tally *)

Section MoreAggregator.

Lemma occurrences_app n l1 l2 :
  occurrences n (l1 ++ l2) = (occurrences n l1 + occurrences n l2)%nat.
Proof. unfold occurrences, qualifying. by rewrite !filter_app, length_app. Qed.

Lemma occurrences_perm n l1 l2 : l1 ≡ₚ l2 → occurrences n l1 = occurrences n l2.
Proof. intros H. unfold occurrences, qualifying. by rewrite H. Qed.

Lemma occurrences_pos n l :
  occurrences n l ≠ 0%nat ↔ n ∈ omap name (qualifying l).
Proof.
  unfold occurrences. rewrite list_elem_of_omap. split.
  - destruct (filter _ _) as [|r l'] eqn:Hf; [done|]. intros _.
    assert (r ∈ filter (λ r, name r = Some n) (qualifying l)) as Hin
      by (rewrite Hf; by left).
    apply list_elem_of_filter in Hin as [Hn Hin]. by exists r.
  - intros (r & Hin & Hn).
    assert (r ∈ filter (λ r, name r = Some n) (qualifying l)) as Hin'
      by by apply list_elem_of_filter.
    destruct (filter _ _); [by apply elem_of_nil in Hin'|done].
Qed.

Lemma tallied_spec r :
  tallied r ↔ qualifies r ∧ ∀ n, name r = Some n → JS.inherited n = false.
Proof.
  unfold tallied, qualifies. destruct (name r) as [n|]; [|by split; [|intros []]].
  destruct (JS.truthy n && _); simpl; [|by split; [|intros []]].
  destruct (JS.inherited n) eqn:Hi; simpl.
  - split; [done|]. intros [_ H]. specialize (H n eq_refl). congruence.
  - split; [|done]. intros _. split; [done|]. by intros ? [= <-].
Qed.

Lemma elem_of_talliedNames n l :
  n ∈ omap name (talliedRecords l)
  ↔ JS.inherited n = false ∧ n ∈ omap name (qualifying l).
Proof.
  unfold talliedRecords, qualifying. rewrite !list_elem_of_omap. split.
  - intros (r & [[Hq Hi]%tallied_spec Hin]%list_elem_of_filter & Hn).
    split; [by apply Hi|]. exists r. split; [|done]. by apply list_elem_of_filter.
  - intros (Hi & r & [Hq Hin]%list_elem_of_filter & Hn).
    exists r. split; [|done]. apply list_elem_of_filter. split; [|done].
    apply tallied_spec. split; [done|]. intros n' Hn'. congruence.
Qed.

Lemma countMaterials_is_Some json bs n :
  is_Some (countMaterials json bs !! n) ↔ n ∈ countedNames json bs.
Proof.
  unfold countedNames. rewrite elem_of_talliedNames, <- occurrences_pos, occurrences_app.
  rewrite countMaterials_lookup, <- !not_eq_None_Some.
  destruct (JS.inherited n); [by split; [|intros []]|].
  destruct (decide (occurrences n bs = 0%nat)) as [->|?];
    destruct (decide (occurrences n (fluidRecords json) = 0%nat)) as [->|?];
    split; try intros [_ H]; try intros H; try split; try done; lia.
Qed.

Lemma countMaterials_positive json bs n info :
  countMaterials json bs !! n = Some info → (1 ≤ count info)%nat.
Proof.
  rewrite countMaterials_lookup. destruct (JS.inherited n); [done|].
  repeat case_decide; intros [= <-]; simpl; lia.
Qed.

Lemma countMaterials_type json bs n info :
  countMaterials json bs !! n = Some info →
  type info = if decide (occurrences n bs = 0%nat) then fluid else block.
Proof.
  rewrite countMaterials_lookup. destruct (JS.inherited n); [done|].
  repeat case_decide; by intros [= <-].
Qed.

(** The names of the tally are not empty. *)
Lemma countedNames_truthy json bs n :
  n ∈ countedNames json bs → JS.truthy n = true.
Proof.
  unfold countedNames. intros [_ (r & Hr & Hn)%list_elem_of_omap]%elem_of_talliedNames.
  apply list_elem_of_filter in Hr as [Hq _]. unfold qualifies in Hq.
  rewrite Hn in Hq. by destruct (JS.truthy n).
Qed.

Lemma hasName_qualifies_counts bs n :
  Forall (λ r, hasName r = qualifies r) bs → countNamed n bs = occurrences n bs.
Proof.
  intros H. unfold countNamed, occurrences, qualifying. do 2 f_equal.
  induction H as [|r bs Hr _ IH]; [done|].
  rewrite !filter_cons, IH, Hr. by destruct (decide (qualifies r)).
Qed.

End MoreAggregator.

(** X11. No name of the tally is invented: the keys of the tally are
    exactly the names of the records that count, but for the names that
    an object inherits, which get no entry; every count is at least 1,
    and "Unique Materials" is the number of distinct such names. *)
Theorem tally_keys (st : AppState) (fname : string) (bs : list Block) (fl : Field) :
  let json := mkDocument (Arr bs) fl in
  let tally := materials (handleFileImport (Some (mkFile fname (Parsed json))) st) in
  dom tally =@{gset string} list_to_set (countedNames json bs)
  ∧ map_Forall (λ _ info, (1 ≤ count info)%nat) tally
  ∧ size tally = length (remove_dups (countedNames json bs)).
Proof.
  intros json tally. subst tally. unfold json.
  rewrite handleFileImport_materials. fold json.
  assert (dom (countMaterials json bs) =@{gset string}
          list_to_set (countedNames json bs)) as Hdom.
  { apply set_eq. intros n.
    by rewrite elem_of_dom, elem_of_list_to_set, countMaterials_is_Some. }
  split; [done|]. split.
  - intros n info. apply countMaterials_positive.
  - rewrite <- (size_dom (D := gset string)), Hdom.
    rewrite <- (size_list_to_set (C := gset string) (remove_dups _))
      by apply NoDup_remove_dups.
    f_equal. apply set_eq. intros n.
    by rewrite !elem_of_list_to_set, elem_of_remove_dups.
Qed.

(** X12. The category of an entry is [fluid] exactly when no counting
    record of the blocks array carries the name: a name is a fluid only
    if it occurs among the fluids alone. *)
Theorem tally_category (st : AppState) (fname : string) (bs : list Block) (fl : Field) :
  let json := mkDocument (Arr bs) fl in
  let tally := materials (handleFileImport (Some (mkFile fname (Parsed json))) st) in
  map_Forall (λ n info, type info = if decide (occurrences n bs = 0%nat)
                                    then fluid else block) tally.
Proof.
  intros json tally. subst tally. unfold json.
  rewrite handleFileImport_materials. intros n info. apply countMaterials_type.
Qed.

(** X13. The tally depends on the records only, not on their order in
    each array, the name of the file or the state before: two files
    whose blocks and whose fluids are the same up to order give the
    same tally. *)
Theorem tally_order_independent (st st' : AppState) (fname fname' : string)
    (bs bs' fs fs' : list Block) :
  bs ≡ₚ bs' → fs ≡ₚ fs' →
  materials (handleFileImport
               (Some (mkFile fname (Parsed (mkDocument (Arr bs) (Arr fs))))) st)
  = materials (handleFileImport
                 (Some (mkFile fname' (Parsed (mkDocument (Arr bs') (Arr fs'))))) st').
Proof.
  intros Hb Hf. rewrite !handleFileImport_materials. apply map_eq. intros n.
  rewrite !countMaterials_lookup. unfold fluidRecords. cbn [doc_fluids].
  by rewrite (occurrences_perm n bs bs' Hb), (occurrences_perm n fs fs' Hf).
Qed.

(** X13 on two orders of the blocks of scenario 1. *)
Lemma tally_order_independent_stone :
  [mkBlock 0 0 0 (Some "stone"); mkBlock 1 0 0 (Some "dirt")]
  ≡ₚ [mkBlock 1 0 0 (Some "dirt"); mkBlock 0 0 0 (Some "stone")]
  ∧ water_fluids ≡ₚ water_fluids
  ∧ materials (handleFileImport
                 (Some (mkFile "a.json" (Parsed (mkDocument
                    (Arr [mkBlock 0 0 0 (Some "stone"); mkBlock 1 0 0 (Some "dirt")])
                    (Arr water_fluids))))) emptyState)
    = materials (handleFileImport
                   (Some (mkFile "b.json" (Parsed (mkDocument
                      (Arr [mkBlock 1 0 0 (Some "dirt"); mkBlock 0 0 0 (Some "stone")])
                      (Arr water_fluids)))))
                   (handleFileImport (Some stone_file) emptyState)).
Proof.
  assert ([mkBlock 0 0 0 (Some "stone"); mkBlock 1 0 0 (Some "dirt")]
          ≡ₚ [mkBlock 1 0 0 (Some "dirt"); mkBlock 0 0 0 (Some "stone")]) as Hb
    by apply Permutation_swap.
  assert (water_fluids ≡ₚ water_fluids) as Hf by reflexivity.
  split; [exact Hb|]. split; [exact Hf|].
  exact (tally_order_independent _ _ _ _ _ _ _ _ Hb Hf).
Defined.

(** X14. "Total Blocks" and the total of the tally differ by the
    records that are not in the tally and by the fluids that are: the
    length of the block list plus the fluid records of the tally is the
    sum of the counts plus the block records left out, where the
    records of the tally are those that count under a name that is not
    an inherited one. *)
Theorem totals_accounting (st : AppState) (fname : string) (bs : list Block) (fl : Field) :
  let json := mkDocument (Arr bs) fl in
  let st' := handleFileImport (Some (mkFile fname (Parsed json))) st in
  (totalBlocks st' + length (talliedRecords (fluidRecords json)))%nat
  = (materialsTotal (materials st') + length (filter (λ r, ¬ tallied r) bs))%nat.
Proof.
  intros json st'. subst st'. unfold json, totalBlocks.
  rewrite handleFileImport_materials, handleFileImport_blocks, countMaterials_total.
  rewrite <- (filter_app_complement (λ r, tallied r) bs) at 1.
  rewrite length_app. unfold talliedRecords. simpl. lia.
Qed.

(** X15. On a file whose fluids are missing or empty, none of whose
    names contains "empty" and none of whose names is an inherited one,
    the basic revision completes the import and counts every name as
    the layer-aware revision does. *)
Theorem revisions_agree (st : AppState) (bst : Basic.AppState) (fname : string)
    (bs : list Block) (fl : Field) (n : string) :
  plainNamed bs →
  Forall (λ r, hasName r = qualifies r) bs →
  fluidRecords (mkDocument (Arr bs) fl) = [] →
  (λ bst', Basic.materials bst' !! n)
    <$> Basic.handleFileImport
          (Some (mkFile fname (Parsed (mkDocument (Arr bs) fl)))) bst
  = Some (count <$> materials
                      (handleFileImport
                         (Some (mkFile fname (Parsed (mkDocument (Arr bs) fl)))) st)
                    !! n).
Proof.
  intros Hp Hq Hf.
  destruct (basic_import_plain bst fname bs fl Hp) as (bst' & -> & Hl & _).
  cbn [fmap option_fmap option_map]. f_equal.
  rewrite Hl, handleFileImport_materials, countMaterials_lookup, Hf.
  change (occurrences n []) with 0%nat.
  rewrite (hasName_qualifies_counts bs n Hq).
  destruct (JS.inherited n) eqn:Hi.
  { by rewrite (plainNamed_occurrences n bs Hp Hi). }
  destruct (decide (occurrences n bs = 0%nat)); simpl; [done|].
  do 2 f_equal. lia.
Qed.

(** X15 on scenario 1. *)
Lemma revisions_agree_stone :
  plainNamed [mkBlock 0 0 0 (Some "stone"); mkBlock 1 0 0 (Some "dirt");
              mkBlock 2 0 0 (Some "stone"); mkBlock 3 0 0 (Some "oak_log")]
  ∧ Forall (λ r, hasName r = qualifies r)
      [mkBlock 0 0 0 (Some "stone"); mkBlock 1 0 0 (Some "dirt");
       mkBlock 2 0 0 (Some "stone"); mkBlock 3 0 0 (Some "oak_log")]
  ∧ fluidRecords stone_doc = []
  ∧ (λ bst', Basic.materials bst' !! "stone")
      <$> Basic.handleFileImport (Some stone_file) (Basic.mkState ∅ "" NoError)
    = Some (count <$> materials (handleFileImport (Some stone_file) emptyState)
                      !! "stone").
Proof.
  assert (plainNamed [mkBlock 0 0 0 (Some "stone"); mkBlock 1 0 0 (Some "dirt");
                      mkBlock 2 0 0 (Some "stone"); mkBlock 3 0 0 (Some "oak_log")])
    as Hp by solve_plainNamed.
  assert (Forall (λ r, hasName r = qualifies r)
            [mkBlock 0 0 0 (Some "stone"); mkBlock 1 0 0 (Some "dirt");
             mkBlock 2 0 0 (Some "stone"); mkBlock 3 0 0 (Some "oak_log")]) as Hq
    by (repeat constructor).
  assert (fluidRecords stone_doc = []) as Hf by reflexivity.
  split; [exact Hp|]. split; [exact Hq|]. split; [exact Hf|].
  exact (revisions_agree emptyState (Basic.mkState ∅ "" NoError) "stone.json"
           _ Absent "stone" Hp Hq Hf).
Defined.

(** X16. No row of the Materials Used table has an empty display name:
    for every key of the tally, whatever the language map,
    [getDisplayName] is a non-empty string. *)
Theorem displayName_nonempty (langMap : gmap string string) (st : AppState)
    (fname : string) (bs : list Block) (fl : Field) :
  let json := mkDocument (Arr bs) fl in
  let tally := materials (handleFileImport (Some (mkFile fname (Parsed json))) st) in
  map_Forall (λ n _, JS.truthy (getDisplayName langMap n) = true) tally.
Proof.
  intros json tally. subst tally. unfold json.
  rewrite handleFileImport_materials. intros n info Hn.
  assert (JS.truthy n = true) as Ht.
  { apply (countedNames_truthy (mkDocument (Arr bs) fl) bs).
    apply countMaterials_is_Some. by rewrite Hn. }
  unfold getDisplayName. destruct (langMap !! n) as [label|]; [|done].
  by destruct (JS.truthy label) eqn:Hl.
Qed.

(** ** The table, the checkboxes and the cards *)

Section Rows.

Context {A : Type} (key : A → nat).

Lemma Sorted_keyGe_head (a : A) (l : list A) :
  Sorted (keyGe key) (a :: l) → Forall (λ b, (key b ≤ key a)%nat) l.
Proof.
  revert a. induction l as [|b l IH]; intros a Hs; [constructor|].
  apply Sorted_inv in Hs as [Hs Hhd]. apply HdRel_inv in Hhd. unfold keyGe in Hhd.
  constructor; [done|].
  eapply Forall_impl; [apply (IH b Hs)|]. intros c Hc. simpl in Hc. lia.
Qed.

Lemma Array_sort_head_max (l : list A) :
  match JS.Array_sort (descending key) l with
  | top :: _ => Forall (λ b, (key b ≤ key top)%nat) l
  | [] => l = []
  end.
Proof.
  pose proof (Array_sort_perm key l) as Hp.
  pose proof (Array_sort_Sorted key l) as Hs.
  destruct (JS.Array_sort (descending key) l) as [|top rest].
  - by apply Permutation_nil_l in Hp.
  - rewrite <- Hp. constructor; [done|]. by apply Sorted_keyGe_head.
Qed.

End Rows.

(** X17. The table shows every entry of the tally exactly once, and its
    first row carries the largest count. *)
Theorem sortedMaterials_rows (m : Materials) :
  sortedMaterials m ≡ₚ map_to_list m
  ∧ NoDup (sortedMaterials m).*1
  ∧ match sortedMaterials m with
    | top :: _ => map_Forall (λ _ info, (count info ≤ count top.2)%nat) m
    | [] => m = ∅
    end.
Proof.
  pose proof (Array_sort_perm (λ e : string * MaterialInfo, count e.2)
                (map_to_list m)) as Hp.
  split; [exact Hp|]. split.
  - unfold sortedMaterials.
    change (λ a b : string * MaterialInfo, Z.of_nat (count b.2) - Z.of_nat (count a.2))
      with (descending (λ e : string * MaterialInfo, count e.2)).
    rewrite Hp. apply NoDup_fst_map_to_list.
  - pose proof (Array_sort_head_max (λ e : string * MaterialInfo, count e.2)
                  (map_to_list m)) as Hh.
    unfold sortedMaterials.
    change (λ a b : string * MaterialInfo, Z.of_nat (count b.2) - Z.of_nat (count a.2))
      with (descending (λ e : string * MaterialInfo, count e.2)).
    destruct (JS.Array_sort _ _) as [|top rest].
    + by apply map_to_list_empty_iff.
    + apply map_Forall_to_list. eapply Forall_impl; [exact Hh|]. by intros [n info].
Qed.

(** X18. Ticking a row flips its checkbox and no other, and ticking it
    twice leaves every checkbox as it was. *)
Theorem toggleChecked_flips (st : AppState) (material other : string) :
  isChecked (toggleChecked material st) other
  = (if decide (other = material) then negb (isChecked st other)
     else isChecked st other)
  ∧ isChecked (toggleChecked material (toggleChecked material st)) other
    = isChecked st other.
Proof.
  assert (∀ st', isChecked (toggleChecked material st') other
                 = (if decide (other = material) then negb (isChecked st' other)
                    else isChecked st' other)) as H.
  { intros st'. unfold isChecked, toggleChecked. simpl.
    destruct (decide (other = material)) as [->|Hne].
    - by rewrite lookup_insert_eq.
    - by rewrite lookup_insert_ne. }
  split; [apply H|]. rewrite !H.
  destruct (decide (other = material)); [apply negb_involutive|done].
Qed.

Section Cards.

(** [handleFileImport] is the change handler followed by the end of the
    read. *)
Lemma handleFileImport_read f st :
  handleFileImport (Some f) st = onload (file_parse f) (chooseFile f st).
Proof. done. Qed.

Lemma chooseFile_error f st : error (chooseFile f st) = NoError.
Proof. done. Qed.


(** The success path of [onload] leaves the error as it finds it: a read
    that ends after another read has failed shows the alert of that one
    beside its own table. *)
Example stale_alert_beside_table :
  let st := (sessions [Act (ChooseFile broken_file); Act (ChooseFile stone_file);
                       Act (ReadEnds (file_parse broken_file));
                       Act (ReadEnds (file_parse stone_file))]).1 in
  showsError st = true ∧ showsMaterials st = true ∧ showsEmptyState st = false.
Proof. vm_compute. done. Qed.

End Cards.



(** ** Reloading the page *)

Section Reload.

Lemma mount_materials ls : materials (mount ls).1 = default ∅ (stored_materials ls).
Proof. unfold mount. simpl. by destruct (stored_blocks ls). Qed.

Lemma mount_checkedItems ls :
  checkedItems (mount ls).1 = default ∅ (stored_checkedItems ls).
Proof. unfold mount. simpl. by destruct (stored_blocks ls). Qed.

Lemma mount_loading ls : isLoadingFromStorage (mount ls).1 = false.
Proof. unfold mount. simpl. by destruct (stored_blocks ls). Qed.

Lemma mount_transient ls :
  selectedLayer (mount ls).1 = None ∧ error (mount ls).1 = NoError.
Proof. unfold mount. simpl. by destruct (stored_blocks ls). Qed.

Lemma Storage_ext (a b : Storage) :
  stored_materials a = stored_materials b →
  stored_checkedItems a = stored_checkedItems b →
  stored_blocks a = stored_blocks b →
  stored_blockColors a = stored_blockColors b →
  a = b.
Proof. destruct a, b. simpl. by intros -> -> -> ->. Qed.

(** Every state of the sessions was followed by the saving effects. *)
Lemma sessions_saved events :
  isLoadingFromStorage (sessions events).1 = false
  ∧ ∃ ls, (sessions events).2 = runEffects (sessions events).1 ls.
Proof.
  unfold sessions. induction events as [|e events [IHl IHs]] using rev_ind.
  - split; [apply (mount_loading emptyStorage)|]. by exists emptyStorage.
  - rewrite foldl_app. cbn [foldl]. destruct e as [a|]; cbn [step].
    + unfold dispatch. cbn [fst snd]. split; [by rewrite update_loading|]. by eexists.
    + split; [apply mount_loading|]. eexists. apply mount_store.
Qed.

Lemma sessions_store events :
  let s := sessions events in
  stored_checkedItems s.2 = Some (checkedItems s.1)
  ∧ (materials s.1 ≠ ∅ → stored_materials s.2 = Some (materials s.1))
  ∧ (blocks s.1 ≠ [] → stored_blocks s.2 = Some (blocks s.1)).
Proof.
  intros s. destruct (sessions_saved events) as [Hl [ls Hs]]. fold s in Hl, Hs.
  destruct (runEffects_spec s.1 ls) as (Hc & Hm & Hb & _).
  rewrite <- Hs in Hc, Hm, Hb. rewrite Hl in Hc. split; [exact Hc|].
  split; intros Hne.
  - rewrite Hm. by destruct (decide (materials s.1 = ∅)).
  - rewrite Hb. by destruct (decide (blocks s.1 = [])).
Qed.

(** Mounting on a store that holds a checkbox map writes nothing new. *)
Lemma mount_store_unchanged ls :
  is_Some (stored_checkedItems ls) → (mount ls).2 = ls.
Proof.
  intros [ck Hck]. rewrite mount_store.
  destruct (runEffects_spec (mount ls).1 ls) as (Hc & Hm & Hb & Hcol).
  rewrite mount_loading, mount_checkedItems, Hck in Hc.
  rewrite mount_materials in Hm. rewrite mount_blocks in Hb.
  rewrite mount_blockColors in Hcol.
  apply Storage_ext.
  - rewrite Hm. clear. destruct (stored_materials ls) as [v|]; simpl.
    + by destruct (decide _).
    + first [done|by rewrite decide_True].
  - by rewrite Hc, Hck.
  - rewrite Hb. clear. destruct (stored_blocks ls) as [v|]; simpl.
    + by destruct (decide _).
    + first [done|by rewrite decide_True].
  - rewrite Hcol. clear. destruct (stored_blockColors ls) as [v|]; simpl.
    + by destruct (decide _).
    + first [done|by rewrite decide_True].
Qed.

End Reload.

(** X20. Over any sessions, a reload brings back the checkbox map and
    the colour map as they were, the tally and the block list as they
    were when they are not empty and the last ones stored otherwise; it
    forgets the selected layer and the error, and it leaves the store
    as it found it. *)
Theorem reload_restores (events : list Event) :
  let s := sessions events in
  let r := mount s.2 in
  checkedItems r.1 = checkedItems s.1
  ∧ blockColors r.1 = blockColors s.1
  ∧ materials r.1 = (if decide (materials s.1 = ∅)
                     then default ∅ (stored_materials s.2) else materials s.1)
  ∧ blocks r.1 = (if decide (blocks s.1 = [])
                  then default [] (stored_blocks s.2) else blocks s.1)
  ∧ selectedLayer r.1 = None ∧ error r.1 = NoError
  ∧ r.2 = s.2.
Proof.
  intros s r. subst r.
  destruct (sessions_store events) as (Hc & Hm & Hb). fold s in Hc, Hm, Hb.
  destruct (sessions_coloursInvariant events) as (_ & _ & Hcol & _). fold s in Hcol.
  rewrite mount_checkedItems, mount_blockColors, mount_materials, mount_blocks.
  rewrite Hc, Hcol. split; [done|]. split; [done|]. split; [|split; [|split; [|split]]].
  - destruct (decide (materials s.1 = ∅)); [done|]. by rewrite Hm.
  - destruct (decide (blocks s.1 = [])); [done|]. by rewrite Hb.
  - apply mount_transient.
  - apply mount_transient.
  - apply mount_store_unchanged. by rewrite Hc.
Qed.

(** X21. An import that fails, by a text that does not parse or by a
    document without a [blocks] array, empties the tally on the screen
    and writes nothing to the tally and the blocks of the store: after
    a reload the page shows the tally and the blocks that a reload
    would have shown before the failed import. *)
Theorem failed_import_then_reload (events : list Event) (fname message : string)
    (fl : Field) :
  let s := sessions events in
  let s1 := dispatch (Import (Some (mkFile fname (Throws message)))) s in
  let s2 := dispatch (Import (Some (mkFile fname (Parsed (mkDocument Absent fl))))) s in
  (materials s1.1 = ∅ ∧ blocks s1.1 = []
   ∧ materials (mount s1.2).1 = materials (mount s.2).1
   ∧ blocks (mount s1.2).1 = blocks (mount s.2).1)
  ∧ (materials s2.1 = ∅ ∧ blocks s2.1 = blocks s.1
     ∧ materials (mount s2.2).1 = materials (mount s.2).1
     ∧ blocks (mount s2.2).1 = blocks (mount s.2).1).
Proof.
  intros s s1 s2.
  destruct (sessions_store events) as (_ & _ & Hb). fold s in Hb.
  split.
  - split; [done|]. split; [done|].
    rewrite !mount_materials, !mount_blocks. subst s1. unfold dispatch. cbn [fst snd].
    destruct (runEffects_spec
                (update (Import (Some (mkFile fname (Throws message)))) s.1) s.2)
      as (_ & -> & -> & _).
    done.
  - split; [done|]. split; [done|].
    rewrite !mount_materials, !mount_blocks. subst s2. unfold dispatch. cbn [fst snd].
    destruct (runEffects_spec
                (update (Import (Some (mkFile fname
                   (Parsed (mkDocument Absent fl))))) s.1) s.2)
      as (_ & -> & -> & _).
    simpl. split; [done|].
    destruct (decide (blocks s.1 = [])); [done|]. by rewrite Hb.
Qed.

(** ** The "empty" filter *)

Section EmptyFilter.

Lemma startsWith_spec s sub :
  JS.startsWith s sub = true ↔ ∃ post, s = sub +:+ post.
Proof.
  revert s. induction sub as [|c sub IH]; intros [|d s]; simpl.
  - split; [intros _; by exists ""|done].
  - split; [intros _; by exists (String d s)|done].
  - split; [done|by intros [post [=]]].
  - destruct (Ascii.eqb c d) eqn:Hcd.
    + apply Ascii.eqb_eq in Hcd as ->. rewrite IH. split.
      * intros [post ->]. by exists post.
      * intros [post [= ->]]. by exists post.
    + apply Ascii.eqb_neq in Hcd. split; [done|]. by intros [post [= -> _]].
Qed.

Lemma includes_spec s sub :
  JS.includes s sub = true ↔ ∃ pre post, s = pre +:+ sub +:+ post.
Proof.
  induction s as [|d s IH]; cbn [JS.includes].
  - destruct (JS.startsWith "" sub) eqn:Hs.
    + split; [|done]. intros _. apply startsWith_spec in Hs as [post Hp].
      by exists "", post.
    + split; [done|]. intros (pre & post & Hp). destruct pre; [|done]. simpl in Hp.
      assert (JS.startsWith "" sub = true) as Hs'
        by (apply startsWith_spec; by exists post).
      by rewrite Hs in Hs'.
  - destruct (JS.startsWith (String d s) sub) eqn:Hs.
    + split; [|done]. intros _. apply startsWith_spec in Hs as [post Hp].
      by exists "", post.
    + rewrite IH. split.
      * intros (pre & post & ->). by exists (String d pre), post.
      * intros (pre & post & Hp). destruct pre as [|d' pre]; simpl in Hp.
        -- assert (JS.startsWith (String d s) sub = true) as Hs'
             by (apply startsWith_spec; by exists post).
           by rewrite Hs in Hs'.
        -- injection Hp as -> ->. by exists pre, post.
Qed.

Lemma lowerChar_idemp c : JS.lowerChar (JS.lowerChar c) = JS.lowerChar c.
Proof. by destruct c as [[] [] [] [] [] [] [] []]. Qed.

Lemma toLowerCase_idemp s : JS.toLowerCase (JS.toLowerCase s) = JS.toLowerCase s.
Proof. induction s as [|c s IH]; simpl; [done|]. by rewrite lowerChar_idemp, IH. Qed.

Lemma toLowerCase_truthy s : JS.truthy (JS.toLowerCase s) = JS.truthy s.
Proof. by destruct s. Qed.

End EmptyFilter.

(** X22. A record counts exactly when it has a name, the name is not
    empty, and the lower-case form of the name has no occurrence of
    "empty" anywhere in it. *)
Theorem qualifies_iff (r : Block) :
  qualifies r = true
  ↔ ∃ n, name r = Some n ∧ n ≠ ""
         ∧ ¬ ∃ pre post, JS.toLowerCase n = pre +:+ "empty" +:+ post.
Proof.
  unfold qualifies. destruct (name r) as [n|].
  - split.
    + intros [Ht Hi]%andb_true_iff. exists n. split; [done|].
      split; [by destruct n|]. intros Hex%includes_spec. by rewrite Hex in Hi.
    + intros (n' & [= <-] & Hne & Hno). apply andb_true_iff.
      split; [by destruct n|]. apply negb_true_iff.
      destruct (JS.includes (JS.toLowerCase n) "empty") eqn:Hi; [|done].
      exfalso. apply Hno. by apply includes_spec.
  - split; [done|]. by intros (n & [=] & _).
Qed.

(** X23. The filter does not look at the case of the letters: a name
    and its lower-case form count, or do not count, together. *)
Theorem qualifies_ignores_case (cx cy cz : Z) (n : string) :
  qualifies (mkBlock cx cy cz (Some n))
  = qualifies (mkBlock cx cy cz (Some (JS.toLowerCase n))).
Proof.
  unfold qualifies. simpl. by rewrite toLowerCase_idemp, toLowerCase_truthy.
Qed.
